(** * Loss accumulator and loss functions of [losses/losses.py]

    A shallow embedding of the [LossManager] class and of the loss functions
    that register their terms with it, together with the properties the
    specification states about them.

    Numbers.  Python floats and the entries of torch tensors are idealised
    as exact rationals ([Q]); rounding, overflow and signed zeros are not
    modelled.  The undefined value the code itself can produce, 0/0 ([nan]
    in torch: the mean of an empty tensor, the standard deviation of a
    single row), is kept as [NaN] in the type [scalar].  A [value] is what
    Python holds where a loss is expected: a zero-dimensional tensor or a
    plain Python number.  Python exceptions are values of [exn]; a method
    that mutates the manager is a function on [LossManager] states, and one
    that may raise returns a [result] next to the state it leaves behind. *)

From Stdlib Require Import QArith Qabs Lia.
From stdpp Require Import gmap strings list.

Local Open Scope Q_scope.

(** ** Python exceptions and results *)

Inductive exn : Type :=
| ZeroDivisionError
| KeyError (key : string)
| IndexError
| TypeError
| AttributeError
| RuntimeError
| ValueError.

Inductive result (A : Type) : Type :=
| Ok (a : A)
| Raise (e : exn).
Arguments Ok {A} a.
Arguments Raise {A} e.

Definition rbind {A B} (r : result A) (k : A -> result B) : result B :=
  match r with
  | Ok a => k a
  | Raise e => Raise e
  end.

Notation "x <- c1 ;; c2" := (rbind c1 (fun x => c2))
  (at level 20, c1 at level 99, c2 at level 200, only parsing).
Notation "' x <- c1 ;; c2" := (rbind c1 (fun x => c2))
  (at level 20, x pattern, c1 at level 99, c2 at level 200, only parsing).

(** A list comprehension [[f x for x in xs]]: evaluated left to right, the
    first exception aborts it. *)
Fixpoint comprehension {A B} (f : A -> result B) (xs : list A) : result (list B) :=
  match xs with
  | [] => Ok []
  | x :: r =>
      y <- f x ;;
      ys <- comprehension f r ;;
      Ok (y :: ys)
  end.

(** [xs[i]] for a non-negative index. *)
Definition getitem {A} (xs : list A) (i : nat) : result A :=
  match xs !! i with
  | Some x => Ok x
  | None => Raise IndexError
  end.

(** ** Scalars *)

Inductive scalar : Type :=
| Num (q : Q)
| NaN.

Definition sadd (a b : scalar) : scalar :=
  match a, b with
  | Num x, Num y => Num (x + y)
  | _, _ => NaN
  end.

(** [w * x] for a Python number [w]. *)
Definition smul (w : Q) (t : scalar) : scalar :=
  match t with
  | Num x => Num (w * x)
  | NaN => NaN
  end.

(** ** Loss values

    The value handed to [addToLosses] is a zero-dimensional tensor, or,
    where the code builds it with Python's [sum] over no tensor at all, a
    plain Python number. *)

Inductive value : Type :=
| Tensor (x : scalar)
| PyNumber (x : scalar).

Definition content (v : value) : scalar :=
  match v with
  | Tensor x => x
  | PyNumber x => x
  end.

(** [a + b]: a number only when both are numbers, a tensor otherwise. *)
Definition vadd (a b : value) : value :=
  match a, b with
  | PyNumber x, PyNumber y => PyNumber (sadd x y)
  | _, _ => Tensor (sadd (content a) (content b))
  end.

(** [w * v] for a Python number [w]. *)
Definition vmul (w : Q) (v : value) : value :=
  match v with
  | Tensor x => Tensor (smul w x)
  | PyNumber x => PyNumber (smul w x)
  end.

(** [v.item()]: the Python float held by a zero-dimensional tensor; a
    Python number has no such method. *)
Definition item (v : value) : result scalar :=
  match v with
  | Tensor x => Ok x
  | PyNumber _ => Raise AttributeError
  end.

(** Python's [sum(xs)]: a left fold that starts from the integer [0]. *)
Definition pysum (xs : list value) : value := fold_left vadd xs (PyNumber (Num 0)).

(** [a > b] on Python numbers. *)
Definition Qgtb (a b : Q) : bool := negb (Qle_bool a b).

(** ** The model handed to the constructor *)

Record Param : Type := mkParam {
  requires_grad : bool;
  size : list nat;
  data : list Q
}.

(** [needle in haystack] on Python strings. *)
Fixpoint str_contains (needle haystack : string) : bool :=
  String.prefix needle haystack ||
  match haystack with
  | EmptyString => false
  | String _ rest => str_contains needle rest
  end.

(** [reduce(f, xs)] without an initial value raises [TypeError] on an empty
    sequence. *)
Definition reduce {A} (f : A -> A -> A) (xs : list A) : result A :=
  match xs with
  | [] => Raise TypeError
  | x :: r => Ok (fold_left f r x)
  end.

(** [a / b] for a Python float [a] and a Python integer [b]. *)
Definition float_div_int (a : Q) (b : nat) : result Q :=
  match b with
  | O => Raise ZeroDivisionError
  | S _ => Ok (a / inject_Z (Z.of_nat b))
  end.

(** ** LossManager *)

(** [loss_history] is the caller's dictionary, which the manager only holds
    a reference to: the field stands for the content of that dictionary, so
    what the manager writes is what the caller reads.  Each name is taken to
    own its list. *)
Record LossManager : Type := mkLossManager {
  reg_params : list Param;
  l1_coeff : Q;
  loss_history : option (gmap string (list scalar));
  names : list string;
  weights : list Q;
  losses : list value
}.

Definition regularizable (named : string * Param) : bool :=
  let '(name, param) := named in
  negb (str_contains ".bias" name) && requires_grad param.

Definition n_params_of (params : list Param) : result nat :=
  counts <- comprehension (fun p => reduce Nat.mul (size p)) params ;;
  Ok (fold_left Nat.add counts 0%nat).

(** [LossManager.__init__] *)
Definition __init__ (model : list (string * Param)) (l1_reg : Q)
    (history : option (gmap string (list scalar))) : result LossManager :=
  let params := map snd (filter (fun e => Is_true (regularizable e)) model) in
  n_params <- n_params_of params ;;
  coeff <- float_div_int l1_reg n_params ;;
  Ok {| reg_params := params; l1_coeff := coeff; loss_history := history;
        names := []; weights := []; losses := [] |}.

(** The defaults [l1_reg=0.0, loss_history=None]. *)
Definition init_default (model : list (string * Param)) : result LossManager :=
  __init__ model 0 None.

(** [LossManager.addToLosses] *)
Definition addToLosses (name : string) (weight : Q) (loss_value : value)
    (self : LossManager) : LossManager :=
  {| reg_params := reg_params self; l1_coeff := l1_coeff self;
     loss_history := loss_history self;
     names := names self ++ [name];
     weights := weights self ++ [weight];
     losses := losses self ++ [loss_value] |}.

(** Python's [zip] of three lists stops at the shortest. *)
Fixpoint zip3 {A B C} (xs : list A) (ys : list B) (zs : list C) : list (A * B * C) :=
  match xs, ys, zs with
  | x :: xs', y :: ys', z :: zs' => (x, y, z) :: zip3 xs' ys' zs'
  | _, _, _ => []
  end.

(** [l[-1] += x] on a non-empty list. *)
Fixpoint iadd_last (l : list scalar) (x : scalar) : list scalar :=
  match l with
  | [] => []
  | [y] => [sadd y x]
  | y :: r => y :: iadd_last r x
  end.

(** The body of the loop of [updateLossHistory] for one term. *)
Definition commit_term (h : gmap string (list scalar)) (t : string * Q * value)
    : result (gmap string (list scalar)) :=
  let '(name, w, loss) := t in
  if Qgtb w 0 then
    match h !! name with
    | None => Raise (KeyError name)
    | Some l =>
        if (0 <? length l)%nat
        then x <- item loss ;; Ok (<[name := iadd_last l (smul w x)]> h)
        else x <- item loss ;; Ok (<[name := l ++ [smul w x]]> h)
    end
  else Ok h.

(** The loop: the dictionary is updated in place, so what was written
    before an exception stays written. *)
Fixpoint commit_loop (terms : list (string * Q * value)) (h : gmap string (list scalar))
    : result unit * gmap string (list scalar) :=
  match terms with
  | [] => (Ok tt, h)
  | t :: r =>
      match commit_term h t with
      | Ok h' => commit_loop r h'
      | Raise e => (Raise e, h)
      end
  end.

Definition with_history (h : gmap string (list scalar)) (self : LossManager) : LossManager :=
  {| reg_params := reg_params self; l1_coeff := l1_coeff self;
     loss_history := Some h;
     names := names self; weights := weights self; losses := losses self |}.

(** [LossManager.updateLossHistory] *)
Definition updateLossHistory (self : LossManager) : result unit * LossManager :=
  match loss_history self with
  | None => (Ok tt, self)
  | Some h =>
      let '(r, h') := commit_loop (zip3 (names self) (weights self) (losses self)) h in
      (r, with_history h' self)
  end.

(** [LossManager.computeTotalLoss] *)
Definition computeTotalLoss (self : LossManager) : result value :=
  products <- comprehension
      (fun i => w <- getitem (weights self) i ;;
                l <- getitem (losses self) i ;;
                Ok (vmul w l))
      (seq 0 (length (losses self))) ;;
  Ok (pysum products).

(** [LossManager.resetLosses] *)
Definition resetLosses (self : LossManager) : LossManager :=
  {| reg_params := reg_params self; l1_coeff := l1_coeff self;
     loss_history := loss_history self;
     names := []; weights := []; losses := [] |}.


(** ** Calls on the loss manager

    A loss function runs against the manager it was handed.  [M A] is such a
    run: it returns a value or raises, and leaves the manager it has
    written to so far. *)

Definition M (A : Type) : Type := LossManager -> result A * LossManager.

Definition lm_ret {A} (a : A) : M A := fun self => (Ok a, self).

Definition lm_bind {A B} (c : M A) (k : A -> M B) : M B :=
  fun self =>
    match c self with
    | (Ok a, self') => k a self'
    | (Raise e, self') => (Raise e, self')
    end.

(** A computation that does not touch the manager. *)
Definition lift {A} (r : result A) : M A := fun self => (r, self).

(** [loss_manager.addToLosses(name, weight, loss_value)] *)
Definition call_addToLosses (name : string) (weight : Q) (loss_value : value) : M unit :=
  fun self => (Ok tt, addToLosses name weight loss_value self).

Notation "x <~ c1 ;; c2" := (lm_bind c1 (fun x => c2))
  (at level 20, c1 at level 99, c2 at level 200, only parsing).

(** [for x in xs: body], with the loop variable [s] the body updates. *)
Fixpoint for_each {S A} (body : S -> A -> M S) (xs : list A) (s : S) : M S :=
  match xs with
  | [] => lm_ret s
  | x :: r => s' <~ body s x ;; for_each body r s'
  end.

(** The same loop for a body that only computes, with its loop variable
    [s]. *)
Fixpoint fold_result {S A} (body : S -> A -> result S) (xs : list A) (s : S) : result S :=
  match xs with
  | [] => Ok s
  | x :: r => s' <- body s x ;; fold_result body r s'
  end.

(** ** Tensors

    A tensor of any shape is its shape with its entries in row-major order;
    where the code works along the rows of a two-dimensional tensor the
    tensor is the list of its rows (a tensor without rows then carries no
    column count).  Operands of different shapes, which torch broadcasts or
    rejects, are reported as [RuntimeError]; the one broadcast the code
    relies on, a matrix against a row vector, has its own operations. *)

Record tensor (A : Type) : Type := mkTensor {
  shape : list nat;
  elems : list A
}.
Arguments mkTensor {A} shape elems.
Arguments shape {A} t.
Arguments elems {A} t.

Abbreviation vec := (list Q).
Abbreviation mat := (list (list Q)).

Definition pow2 (x : Q) : Q := x * x.

(** [th.sum] *)
Definition tsum (xs : vec) : Q := fold_left Qplus xs 0.

Definition qmean (xs : vec) : Q := tsum xs / inject_Z (Z.of_nat (length xs)).

(** [.mean()] over all entries: 0/0, that is [nan], when there is none. *)
Definition mean (xs : vec) : scalar :=
  match xs with
  | [] => NaN
  | _ :: _ => Num (qmean xs)
  end.

(** [F.relu] *)
Definition relu (x : Q) : Q := if Qle_bool x 0 then 0 else x.

Definition smap (f : Q -> Q) (t : scalar) : scalar :=
  match t with
  | Num x => Num (f x)
  | NaN => NaN
  end.

(** Operations entry by entry, on operands of one shape, which is what
    every call of this file is written for; operands of different shapes,
    some of which torch would stretch to a common shape, are reported as
    [RuntimeError] and nothing is stated here about their values. *)
Definition pointwise (f : Q -> Q -> Q) (a b : vec) : result vec :=
  if decide (length a = length b) then Ok (zip_with f a b) else Raise RuntimeError.

Definition pointwise2 (f : Q -> Q -> Q) (a b : mat) : result mat :=
  if decide (length a = length b)
  then comprehension (fun rows => pointwise f rows.1 rows.2) (zip a b)
  else Raise RuntimeError.

Definition tensor_pointwise (f : Q -> Q -> Q) (a b : tensor Q) : result (tensor Q) :=
  if decide (shape a = shape b)
  then Ok (mkTensor (shape a) (zip_with f (elems a) (elems b)))
  else Raise RuntimeError.

Definition tensor_map (f : Q -> Q) (a : tensor Q) : tensor Q :=
  mkTensor (shape a) (map f (elems a)).

(** A matrix against a row vector, row by row. *)
Definition pointwise_rows (f : Q -> Q -> Q) (a : mat) (v : vec) : result mat :=
  comprehension (fun row => pointwise f row v) a.

(** [.sum(1)] *)
Definition sum1 (a : mat) : vec := map tsum a.

(** [.t()] *)
Fixpoint transpose (a : mat) : mat :=
  match a with
  | [] => []
  | [row] => map (fun x => [x]) row
  | row :: rest => zip_with cons row (transpose rest)
  end.

(** [th.mean(a, dim=0)] *)
Definition mean_dim0 (a : mat) : vec := map qmean (transpose a).

(** [th.cat([a, b], dim=1)] *)
Definition cat_dim1 (a b : mat) : result mat :=
  if decide (length a = length b) then Ok (zip_with app a b) else Raise RuntimeError.

Definition dot (a b : vec) : result Q :=
  products <- pointwise Qmult a b ;; Ok (tsum products).

(** [th.mm(a, b)] *)
Definition mm (a b : mat) : result mat :=
  comprehension (fun row => comprehension (fun col => dot row col) (transpose b)) a.

(** [xs[i]] with Python's negative indices. *)
Definition pyindex {A} (xs : list A) (i : Z) : result A :=
  if (0 <=? i)%Z then getitem xs (Z.to_nat i)
  else if (- Z.of_nat (length xs) <=? i)%Z then getitem xs (Z.to_nat (Z.of_nat (length xs) + i))
  else Raise IndexError.

(** [xs[idx]] for an index array. *)
Definition index_select {A} (xs : list A) (idx : list Z) : result (list A) :=
  comprehension (pyindex xs) idx.

(** [.squeeze(dim)] *)
Definition squeeze {A} (dim : nat) (t : tensor A) : result (tensor A) :=
  match shape t !! dim with
  | None => Raise IndexError
  | Some 1%nat => Ok (mkTensor (delete dim (shape t)) (elems t))
  | Some _ => Ok t
  end.

(** [F.mse_loss(input, target, size_average=...)] *)
Definition mse_loss (input target : tensor Q) (size_average : bool) : result scalar :=
  diff <- tensor_pointwise Qminus input target ;;
  let squares := map pow2 (elems diff) in
  Ok (if size_average then mean squares else Num (tsum squares)).

(** Modelled from the spec: [ReverseLayerF] of [models.priors], whose
    source is not part of this file's repository fragment.  The spec gives
    its forward pass as the identity; its backward pass has no part in the
    values computed here. *)
Definition ReverseLayerF_apply (x : mat) (lambda_ : Q) : mat := x.

(** [eps] of [mutualInformationLoss] *)
Definition eps : Q := 1e-10.

(** A tensor division.  torch yields [inf] or [nan] for a zero divisor; here
    a zero divisor is reported as [ZeroDivisionError], so that its absence
    can be stated. *)
Definition checked_div (a b : Q) : result Q :=
  if Qeq_bool b 0 then Raise ZeroDivisionError else Ok (a / b).

(** The same for a divisor that may be [nan]: the quotient is then [nan]. *)
Definition div_entry (a : Q) (b : scalar) : result scalar :=
  match b with
  | NaN => Ok NaN
  | Num d => q <- checked_div a d ;; Ok (Num q)
  end.

(** A row divided, entry by entry, by a row of divisors. *)
Definition div_row (a : vec) (b : list scalar) : result (list scalar) :=
  if decide (length a = length b)
  then comprehension (fun ab => div_entry ab.1 ab.2) (zip a b)
  else Raise RuntimeError.

(** [sigma + eps]: the divisors of [mutualInformationLoss]. *)
Definition guarded (sigma : list scalar) : list scalar :=
  map (fun s => sadd s (Num eps)) sigma.

(** The entries of a row, when none of them is [nan]. *)
Fixpoint all_num (z : list scalar) : option vec :=
  match z with
  | [] => Some []
  | Num q :: r => match all_num r with Some qs => Some (q :: qs) | None => None end
  | NaN :: _ => None
  end.

(** ** The loss functions *)

Section LossFunctions.

(** What torch and numpy provide and the rationals do not: the
    transcendental functions, the constant pi, the two cross-entropy
    criteria and the random generator of numpy with its state. *)
Variable th_exp : Q -> Q.
Variable th_log : Q -> Q.
Variable th_sqrt : Q -> Q.
Variable np_pi : Q.
Variable CrossEntropyLoss : tensor Q -> tensor Z -> result scalar.
Variable BCELoss : tensor Q -> tensor Q -> result scalar.
Variable rng : Type.
Variable np_random_rand : rng -> Q * rng.
Variable np_random_choice : list Z -> rng -> Z * rng.
Variable np_random_permutation : nat -> rng -> list Z * rng.

(** [.norm(2, dim=1)] *)
Definition norm_dim1 (a : mat) : vec :=
  map (fun row => th_sqrt (tsum (map pow2 row))) a.

(** [th.norm(v, 2)] *)
Definition norm (v : vec) : Q := th_sqrt (tsum (map pow2 v)).

(** [th.norm(z, 2)] of a row that may hold a [nan]. *)
Definition norm_s (z : list scalar) : scalar :=
  match all_num z with
  | Some qs => Num (norm qs)
  | None => NaN
  end.

(** The unbiased standard deviation of one column: the root of the sum of
    the squared deviations divided by the number of entries less one, which
    is 0/0, [nan], for a column of a single entry (or of none). *)
Definition th_std (column : vec) : scalar :=
  match column with
  | [] => NaN
  | [_] => NaN
  | _ :: _ :: _ =>
      Num (th_sqrt (tsum (map (fun x => pow2 (x - qmean column)) column)
                    / inject_Z (Z.of_nat (length column) - 1)))
  end.

(** [th.std(a, dim=0)] *)
Definition std_dim0 (a : mat) : list scalar := map th_std (transpose a).

(** The [similarity] lambda of [roboticPriorsLoss]. *)
Definition similarity (x y : mat) : result vec :=
  diff <- pointwise2 Qminus x y ;;
  Ok (map (fun n => th_exp (- pow2 n)) (norm_dim1 diff)).

Definition roboticPriorsLoss (states next_states : mat) (minibatch_idx : Z)
    (dissimilar_pairs same_actions_pairs : list (list (Z * Z)))
    (weight : Q) : M value :=
  dissimilar_pairs <~ lift (pyindex dissimilar_pairs minibatch_idx) ;;
  same_actions_pairs <~ lift (pyindex same_actions_pairs minibatch_idx) ;;
  state_diff <~ lift (pointwise2 Qminus next_states states) ;;
  let state_diff_norm := norm_dim1 state_diff in
  let temp_coherence_loss := Tensor (mean (map pow2 state_diff_norm)) in
  d0 <~ lift (index_select states (map fst dissimilar_pairs)) ;;
  d1 <~ lift (index_select states (map snd dissimilar_pairs)) ;;
  sim_d <~ lift (similarity d0 d1) ;;
  let causality_loss := Tensor (mean sim_d) in
  n0 <~ lift (index_select state_diff_norm (map fst same_actions_pairs)) ;;
  n1 <~ lift (index_select state_diff_norm (map snd same_actions_pairs)) ;;
  dn <~ lift (pointwise Qminus n0 n1) ;;
  let proportionality_loss := Tensor (mean (map pow2 dn)) in
  s0 <~ lift (index_select states (map fst same_actions_pairs)) ;;
  s1 <~ lift (index_select states (map snd same_actions_pairs)) ;;
  sim_s <~ lift (similarity s0 s1) ;;
  c0 <~ lift (index_select state_diff (map fst same_actions_pairs)) ;;
  c1 <~ lift (index_select state_diff (map snd same_actions_pairs)) ;;
  dc <~ lift (pointwise2 Qminus c0 c1) ;;
  weighted <~ lift (pointwise Qmult sim_s (map pow2 (norm_dim1 dc))) ;;
  let repeatability_loss := Tensor (mean weighted) in
  let weights := [1; 1; 1; 1] in
  let names := ["temp_coherence_loss"; "causality_loss";
                "proportionality_loss"; "repeatability_loss"] in
  let losses := [temp_coherence_loss; causality_loss;
                 proportionality_loss; repeatability_loss] in
  total_loss <~ for_each
      (fun total_loss idx =>
         name <~ lift (getitem names idx) ;;
         w <~ lift (getitem weights idx) ;;
         loss <~ lift (getitem losses idx) ;;
         _ <~ call_addToLosses name w loss ;;
         lm_ret (vadd total_loss loss))
      (seq 0 (length weights)) (PyNumber (Num 0)) ;;
  lm_ret (vmul weight total_loss).

Definition forwardModelLoss (next_states_pred next_states : tensor Q)
    (weight : Q) : M value :=
  forward_loss <~ lift (mse_loss next_states_pred next_states true) ;;
  let forward_loss := Tensor forward_loss in
  _ <~ call_addToLosses "forward_loss" weight forward_loss ;;
  lm_ret (vmul weight forward_loss).

Definition inverseModelLoss (actions_pred : tensor Q) (actions_st : tensor Z)
    (weight : Q) : M value :=
  target <~ lift (squeeze 1 actions_st) ;;
  inverse_loss <~ lift (CrossEntropyLoss actions_pred target) ;;
  let inverse_loss := Tensor inverse_loss in
  _ <~ call_addToLosses "inverse_loss" weight inverse_loss ;;
  lm_ret (vmul weight inverse_loss).

(** For an empty [params] Python's [sum] is the integer 0 it starts from,
    and no tensor. *)
Definition l1Loss (params : list Param) (weight : Q) : M value :=
  let l1_loss :=
    pysum (map (fun param => Tensor (Num (tsum (map Qabs (data param))))) params) in
  _ <~ call_addToLosses "l1_loss" weight l1_loss ;;
  lm_ret (vmul weight l1_loss).

Definition rewardModelLoss (rewards_pred : tensor Q) (rewards_st : tensor Z)
    (weight : Q) : M value :=
  target <~ lift (squeeze 1 rewards_st) ;;
  reward_loss <~ lift (CrossEntropyLoss rewards_pred target) ;;
  let reward_loss := Tensor reward_loss in
  _ <~ call_addToLosses "reward_loss" weight reward_loss ;;
  lm_ret (vmul weight reward_loss).

Definition reconstructionLoss (input_image target_image : tensor Q) : result scalar :=
  mse_loss input_image target_image true.

Definition autoEncoderLoss (obs decoded_obs next_obs decoded_next_obs : tensor Q)
    (weight : Q) : M value :=
  r <~ lift (reconstructionLoss obs decoded_obs) ;;
  r_next <~ lift (reconstructionLoss next_obs decoded_next_obs) ;;
  let ae_loss := Tensor (sadd r r_next) in
  _ <~ call_addToLosses "reconstruction_loss" weight ae_loss ;;
  lm_ret (vmul weight ae_loss).

(** [-0.5 * th.sum(1 + logvar - mu.pow(2) - logvar.exp())] *)
Definition kl_term (mu logvar : tensor Q) : result Q :=
  a <- tensor_pointwise Qminus (tensor_map (Qplus 1) logvar) (tensor_map pow2 mu) ;;
  b <- tensor_pointwise Qminus a (tensor_map th_exp logvar) ;;
  Ok (- (1 # 2) * tsum (elems b)).

(** [F.mse_loss] on arguments that default to [None]. *)
Definition mse_loss_opt (input target : option (tensor Q)) (size_average : bool)
    : result scalar :=
  match input, target with
  | Some i, Some t => mse_loss i t size_average
  | _, _ => Raise AttributeError
  end.

Definition vaeLoss (decoded next_decoded obs next_obs mu next_mu logvar next_logvar : tensor Q)
    (weight : Q) (beta : Q) (perceptual_similarity_loss : bool)
    (encoded_real encoded_prediction next_encoded_real next_encoded_prediction
       : option (tensor Q))
    (weight_perceptual : Q) : M value :=
  kl <~ lift (kl_term mu logvar) ;;
  kl_next <~ lift (kl_term next_mu next_logvar) ;;
  let kl_divergence := Tensor (Num (kl + kl_next)) in
  if perceptual_similarity_loss then
    e <~ lift (mse_loss_opt encoded_real encoded_prediction false) ;;
    e_next <~ lift (mse_loss_opt next_encoded_real next_encoded_prediction false) ;;
    let denoiser_encoding_loss := Tensor (sadd e e_next) in
    _ <~ call_addToLosses "denoising perceptual similarity" weight_perceptual
           denoiser_encoding_loss ;;
    let vae_loss := vadd (vmul weight_perceptual denoiser_encoding_loss)
                         (vmul beta kl_divergence) in
    _ <~ call_addToLosses "kl_loss" beta kl_divergence ;;
    lm_ret (vmul weight vae_loss)
  else
    g <~ lift (mse_loss decoded obs false) ;;
    g_next <~ lift (mse_loss next_decoded next_obs false) ;;
    let generation_loss := Tensor (sadd g g_next) in
    let vae_loss := vadd generation_loss (vmul beta kl_divergence) in
    let loss_name := "kl_loss" in
    _ <~ call_addToLosses loss_name weight vae_loss ;;
    lm_ret (vmul weight vae_loss).

(** [float(1 / np.sqrt(2 * np.pi))] *)
Definition gauss_const : Q := 1 / th_sqrt (2 * np_pi).

(** The density estimate of [mutualInformationLoss] for one row:
    [c * th.exp(-th.pow(th.norm((row - mu) / (sigma + eps), 2), 2) / 2) + eps],
    which is [nan] as soon as one of the standard deviations is. *)
Definition density (row mu : vec) (sigma : list scalar) : result scalar :=
  centred <- pointwise Qminus row mu ;;
  z <- div_row centred (guarded sigma) ;;
  Ok (smap (fun n => gauss_const * th_exp (- pow2 n / 2) + eps) (norm_s z)).

(** [p_xy * th.log(p_xy / (p_x[x] * p_y[y]))] *)
Definition information_term (p_xy px py : scalar) : result scalar :=
  match p_xy, px, py with
  | Num a, Num b, Num c => ratio <- checked_div a (b * c) ;; Ok (Num (a * th_log ratio))
  | _, _, _ => Ok NaN
  end.

(** [I += v], where [I] starts as the Python integer 0 ([None] here) and
    is a tensor from the first addition on. *)
Definition iadd (I : option scalar) (v : scalar) : option scalar :=
  match I with
  | None => Some (sadd (Num 0) v)
  | Some i => Some (sadd i v)
  end.

Definition mutualInformationLoss (states rewards_st : mat) (weight : Q) : M value :=
  let X := states in
  let Y := rewards_st in
  p_x <~ lift (comprehension (fun row => density row (mean_dim0 X) (std_dim0 X)) X) ;;
  p_y <~ lift (comprehension (fun row => density row (mean_dim0 Y) (std_dim0 Y)) Y) ;;
  I <~ lift (fold_result
      (fun I x =>
         fold_result
           (fun I y =>
              X_x <- getitem X x ;;
              Y_y <- getitem Y y ;;
              XY <- cat_dim1 X Y ;;
              p_xy <- density (X_x ++ Y_y) (mean_dim0 XY) (std_dim0 XY) ;;
              px <- getitem p_x x ;;
              py <- getitem p_y y ;;
              term <- information_term p_xy px py ;;
              Ok (iadd I term))
           (seq 0 (length Y)) I)
      (seq 0 (length X)) None) ;;
  match I with
  | None => lift (Raise TypeError)
  | Some i =>
      let reward_prior_loss := Tensor (smap (fun i => th_exp (- i)) i) in
      _ <~ call_addToLosses "reward_prior" weight reward_prior_loss ;;
      lm_ret (vmul weight reward_prior_loss)
  end.

Definition rewardPriorLoss (states rewards_st : mat) (weight : Q) : M value :=
  centred_states <~ lift (pointwise_rows Qminus states (mean_dim0 states)) ;;
  centred_rewards <~ lift (pointwise_rows Qminus rewards_st (mean_dim0 rewards_st)) ;;
  product <~ lift (mm (transpose centred_states) centred_rewards) ;;
  let reward_loss := mean (concat product) in
  let reward_prior_loss := Tensor (smap (fun x => th_exp (- Qabs x)) reward_loss) in
  _ <~ call_addToLosses "reward_prior" weight reward_prior_loss ;;
  lm_ret (vmul weight reward_prior_loss).

(** [np.where(cond)[0]]: the positions whose entry satisfies [cond]. *)
Definition where_ (cond : Z -> bool) (xs : list Z) : list Z :=
  map (fun jx => Z.of_nat jx.1)
      (filter (fun jx => Is_true (cond jx.2)) (imap pair xs)).

(** [np.random.choice], which raises on an empty array. *)
Definition choice (candidates : list Z) (g : rng) : result Z * rng :=
  match candidates with
  | [] => (Raise ValueError, g)
  | _ :: _ => let '(c, g') := np_random_choice candidates g in (Ok c, g')
  end.

(** [np.arange(n)] *)
Definition arange (n : nat) : list Z := map Z.of_nat (seq 0 n).

(** The balanced sampling loop of [episodePriorLoss]. *)
Fixpoint balanced_others (episodes : list Z) (idxs : list nat) (others_idx : list Z)
    (g : rng) : result (list Z) * rng :=
  match idxs with
  | [] => (Ok others_idx, g)
  | i :: rest =>
      let '(u, g1) := np_random_rand g in
      match getitem episodes i with
      | Raise e => (Raise e, g1)
      | Ok episode_i =>
          let candidates :=
            if Qgtb u 0.5
            then where_ (fun e => negb (e =? episode_i)%Z) episodes
            else where_ (fun e => (e =? episode_i)%Z) episodes in
          match choice candidates g1 with
          | (Ok c, g2) => balanced_others episodes rest (<[i := c]> others_idx) g2
          | (Raise e, g2) => (Raise e, g2)
          end
      end
  end.

(** [(episodes == others_episodes).astype(np.float32)], as a tensor.  On
    arrays of different lengths numpy does not compare entry by entry and
    [th.from_numpy] rejects what comes out. *)
Definition same_episodes_of (episodes others_episodes : list Z) : result (tensor Q) :=
  if decide (length episodes = length others_episodes)
  then Ok (mkTensor [length episodes]
             (zip_with (fun a b => if (a =? b)%Z then 1 else 0) episodes others_episodes))
  else Raise TypeError.

Definition episodePriorLoss (minibatch_idx : Z) (minibatch_episodes : list (list Z))
    (states : mat) (discriminator : mat -> result (tensor Q))
    (balanced_sampling : bool) (weight : Q) (g : rng) : M value * rng :=
  let lambda_ := 1 in
  let reverse_states := ReverseLayerF_apply states lambda_ in
  match pyindex minibatch_episodes minibatch_idx with
  | Raise e => (lift (Raise e), g)
  | Ok episodes =>
      let '(sampled, g') :=
        if balanced_sampling
        then balanced_others episodes (seq 0 (length episodes))
               (arange (length episodes)) g
        else let '(p, g1) := np_random_permutation (length states) g in (Ok p, g1) in
      (others_idx <~ lift sampled ;;
       picked <~ lift (index_select reverse_states others_idx) ;;
       episode_input <~ lift (cat_dim1 reverse_states picked) ;;
       episode_output <~ lift (discriminator episode_input) ;;
       others_episodes <~ lift (index_select episodes others_idx) ;;
       same_episodes <~ lift (same_episodes_of episodes others_episodes) ;;
       output <~ lift (squeeze 1 episode_output) ;;
       episode_loss <~ lift (BCELoss output same_episodes) ;;
       let episode_loss := Tensor episode_loss in
       _ <~ call_addToLosses "episode_prior" weight episode_loss ;;
       lm_ret (vmul weight episode_loss),
       g')
  end.

Definition tripletLoss (states p_states n_states : mat) (weight : Q) (alpha : Q)
    : M value :=
  diff_p <~ lift (pointwise2 Qminus states p_states) ;;
  let distance_positive := sum1 (map (map pow2) diff_p) in
  diff_n <~ lift (pointwise2 Qminus states n_states) ;;
  let distance_negative := sum1 (map (map pow2) diff_n) in
  margin <~ lift (pointwise Qminus distance_positive distance_negative) ;;
  let tcn_triplet_loss := map relu (map (fun d => d + alpha) margin) in
  let tcn_triplet_loss := Tensor (mean tcn_triplet_loss) in
  _ <~ call_addToLosses "triplet_loss" weight tcn_triplet_loss ;;
  lm_ret (vmul weight tcn_triplet_loss).

(** The default [alpha=0.2]. *)
Definition tripletLoss_default (states p_states n_states : mat) (weight : Q) : M value :=
  tripletLoss states p_states n_states weight 0.2.

End LossFunctions.
(** ** Sequences of calls *)

(** A recorded term: name, weight, value. *)
Abbreviation term := (string * Q * value)%type.

Definition add_term (self : LossManager) (t : term) : LossManager :=
  let '(name, w, v) := t in addToLosses name w v self.

Definition add_all (ts : list term) (self : LossManager) : LossManager :=
  fold_left add_term ts self.

(** The sum of the spec, [Σ weight_i * value_i], accumulated from zero in
    insertion order. *)
Fixpoint weighted_sum_from (acc : value) (ts : list term) : value :=
  match ts with
  | [] => acc
  | (_, w, v) :: r => weighted_sum_from (vadd acc (vmul w v)) r
  end.

(** The zero the sum starts from is the integer of Python. *)
Definition weighted_sum (ts : list term) : value := weighted_sum_from (PyNumber (Num 0)) ts.

Inductive op : Type :=
| OpAdd (name : string) (weight : Q) (loss_value : value)
| OpTotal
| OpCommit
| OpReset.

(** The state a call leaves behind; what the call returns or raises is
    dropped here. *)
Definition step (self : LossManager) (o : op) : LossManager :=
  match o with
  | OpAdd name w v => addToLosses name w v self
  | OpTotal => let _ := computeTotalLoss self in self
  | OpCommit => (updateLossHistory self).2
  | OpReset => resetLosses self
  end.

Definition run (ops : list op) (self : LossManager) : LossManager :=
  fold_left step ops self.

(** The terms added since the last reset. *)
Definition record_op (ts : list term) (o : op) : list term :=
  match o with
  | OpAdd name w v => ts ++ [(name, w, v)]
  | OpReset => []
  | _ => ts
  end.

Definition recorded (ops : list op) : list term := fold_left record_op ops [].

Definition term_name (t : term) : string := t.1.1.
Definition term_weight (t : term) : Q := t.1.2.
Definition term_value (t : term) : value := t.2.

(** The manager holds exactly the terms [ts], index by index. *)
Definition holds (self : LossManager) (ts : list term) : Prop :=
  names self = map term_name ts /\
  weights self = map term_weight ts /\
  losses self = map term_value ts.

(** What the spec says one commit does to the history, term by term in
    the order of recording: a term whose weight is not positive is passed
    over; a term of positive weight, whose value is a tensor, has
    [weight * value] merged into the most recent entry of its name or, when
    the name has no entry yet, appended as its first. *)
Inductive commits : gmap string (list scalar) -> list term -> gmap string (list scalar) -> Prop :=
| commits_done h :
    commits h [] h
| commits_skip h h' name w v ts :
    ~ 0 < w ->
    commits h ts h' ->
    commits h ((name, w, v) :: ts) h'
| commits_merge h h' name w x ts entries recent :
    0 < w ->
    h !! name = Some (entries ++ [recent]) ->
    commits (<[name := entries ++ [sadd recent (smul w x)]]> h) ts h' ->
    commits h ((name, w, Tensor x) :: ts) h'
| commits_append h h' name w x ts :
    0 < w ->
    h !! name = Some [] ->
    commits (<[name := [smul w x]]> h) ts h' ->
    commits h ((name, w, Tensor x) :: ts) h'.

Definition positive (t : term) : bool := Qgtb (term_weight t) 0.

(** The values of the terms of positive weight are tensors. *)
Definition tensors (ts : list term) : Prop :=
  forall name w v, (name, w, v) ∈ ts -> 0 < w -> exists x, v = Tensor x.


(** The names of the terms of positive weight have their slot in the
    history. *)
Definition registered (h : gmap string (list scalar)) (ts : list term) : Prop :=
  forall name w v, (name, w, v) ∈ ts -> 0 < w -> is_Some (h !! name).


(** ** The two-commit scenario *)

(** [history[name][-1]] of the manager's history. *)
Definition history_last (self : LossManager) (name : string) : option scalar :=
  match loss_history self with
  | Some h => match h !! name with Some l => last l | None => None end
  | None => None
  end.

Definition history_entries (self : LossManager) (name : string) : option (list scalar) :=
  match loss_history self with
  | Some h => h !! name
  | None => None
  end.

(** add "x" 1 2.0; commit; add "x" 1 3.0; commit, with no reset. *)
Definition two_commits (self : LossManager) : result unit * LossManager :=
  let s1 := addToLosses "x" 1 (Tensor (Num 2)) self in
  match updateLossHistory s1 with
  | (Ok _, s2) =>
      let s3 := addToLosses "x" 1 (Tensor (Num 3)) s2 in
      updateLossHistory s3
  | (Raise e, s2) => (Raise e, s2)
  end.

(** The same with a reset before the second add. *)
Definition two_commits_reset (self : LossManager) : result unit * LossManager :=
  let s1 := addToLosses "x" 1 (Tensor (Num 2)) self in
  match updateLossHistory s1 with
  | (Ok _, s2) =>
      let s3 := addToLosses "x" 1 (Tensor (Num 3)) (resetLosses s2) in
      updateLossHistory s3
  | (Raise e, s2) => (Raise e, s2)
  end.

(** A small model: one linear layer with its bias. *)
Definition demo_model : list (string * Param) :=
  [("fc.weight", mkParam true [2; 3]%nat [1; 2; 3; 4; 5; 6]);
   ("fc.bias", mkParam true [3]%nat [0; 0; 0])].

Definition demo_history : gmap string (list scalar) := {["x" := []]}.

Definition demo_manager : LossManager :=
  {| reg_params := [mkParam true [2; 3]%nat [1; 2; 3; 4; 5; 6]];
     l1_coeff := 1 / 6;
     loss_history := Some demo_history;
     names := []; weights := []; losses := [] |}.


(** ** The triplet loss as the spec words it *)

(** [‖a - b‖²] *)
Definition sq_dist (a b : vec) : Q := tsum (map pow2 (zip_with Qminus a b)).

(** [distance_negative - distance_positive >= margin] for one sample
    (anchor, positive, negative). *)
Definition separated (margin : Q) (sample : vec * vec * vec) : Prop :=
  let '(anchor, pos, neg) := sample in
  margin <= sq_dist anchor neg - sq_dist anchor pos.

(** [mean(relu(‖anchor-positive‖² - ‖anchor-negative‖² + margin))] *)
Definition triplet_formula (margin : Q) (states p_states n_states : mat) : scalar :=
  mean (map (fun sample : vec * vec * vec =>
               let '(anchor, pos, neg) := sample in
               relu (sq_dist anchor pos - sq_dist anchor neg + margin))
            (zip3 states p_states n_states)).

(** Two matrices of one shape. *)
Definition same_shape (a b : mat) : Prop :=
  Forall2 (fun r1 r2 : vec => length r1 = length r2) a b.

(** ** What a loss function leaves in the manager *)

(** One call of [addToLosses], under [name] and with the function's
    [weight], and [weight * raw_loss] returned for the value registered; a
    run that raises has registered nothing. *)
Definition registers_once (name : string) (weight : Q) (run : M value) : Prop :=
  forall self,
    match run self with
    | (Ok returned, self') =>
        exists raw_loss,
          self' = addToLosses name weight raw_loss self /\
          returned = vmul weight raw_loss
    | (Raise _, self') => self' = self
    end.

(** A batch of two samples in the plane, for the examples. *)
Definition demo_states : mat := [[0; 0]; [1; 1]].
Definition demo_next_states : mat := [[1; 0]; [1; 3]].
Definition demo_p_states : mat := [[0; 1]; [1; 1]].
Definition demo_n_states : mat := [[3; 0]; [1; 2]].
Definition demo_pairs : list (list (Z * Z)) := [[(0, 1)%Z]].
Definition demo_close_n_states : mat := [[3; 0]; [1; 1]].

(** The four calls of [roboticPriorsLoss], each with weight 1, and
    [weight] times the sum of the four values returned. *)
Definition registers_four_priors (weight : Q) (run : M value) : Prop :=
  forall self,
    match run self with
    | (Ok returned, self') =>
        exists temp_coherence causality proportionality repeatability,
          self' = addToLosses "repeatability_loss" 1 repeatability
                    (addToLosses "proportionality_loss" 1 proportionality
                       (addToLosses "causality_loss" 1 causality
                          (addToLosses "temp_coherence_loss" 1 temp_coherence self))) /\
          returned = vmul weight
                       (vadd (vadd (vadd (vadd (PyNumber (Num 0)) temp_coherence) causality)
                                   proportionality) repeatability)
    | (Raise _, self') => self' = self
    end.

(** The parts of [vaeLoss]: the KL divergence of both latent
    distributions, the pixel-space reconstruction error of both
    observations, and the distance of both pairs of encodings. *)
Definition kl_divergence_of (th_exp : Q -> Q) (mu next_mu logvar next_logvar : tensor Q)
    : result scalar :=
  kl <- kl_term th_exp mu logvar ;;
  kl_next <- kl_term th_exp next_mu next_logvar ;;
  Ok (Num (kl + kl_next)).

Definition generation_loss_of (decoded next_decoded obs next_obs : tensor Q) : result scalar :=
  g <- mse_loss decoded obs false ;;
  g_next <- mse_loss next_decoded next_obs false ;;
  Ok (sadd g g_next).

Definition denoiser_encoding_loss_of
    (encoded_real encoded_prediction next_encoded_real next_encoded_prediction
       : option (tensor Q)) : result scalar :=
  e <- mse_loss_opt encoded_real encoded_prediction false ;;
  e_next <- mse_loss_opt next_encoded_real next_encoded_prediction false ;;
  Ok (sadd e e_next).

(** The quantities the spec names, written over the entries of the
    tensors: the KL divergence of a diagonal Gaussian of means [mu] and
    log-variances [logvar] from the standard normal,
    [-1/2 Σ (1 + logvar_i - mu_i² - exp(logvar_i))], and the squared error
    [Σ (a_i - b_i)²] summed over all entries. *)
Definition gaussian_kl (th_exp : Q -> Q) (mu logvar : vec) : Q :=
  - (1 # 2) *
  fold_right Qplus 0
    (map (fun ml : Q * Q => 1 + ml.2 - ml.1 * ml.1 - th_exp ml.2) (zip mu logvar)).

Definition squared_error (a b : vec) : Q :=
  fold_right Qplus 0 (map (fun xy : Q * Q => (xy.1 - xy.2) * (xy.1 - xy.2)) (zip a b)).

(** One observation of two pixels with a one-dimensional latent. *)
Definition demo_obs : tensor Q := mkTensor [1; 2]%nat [1; 0].
Definition demo_decoded : tensor Q := mkTensor [1; 2]%nat [0; 0].
Definition demo_mu : tensor Q := mkTensor [1; 1]%nat [1].
Definition demo_logvar : tensor Q := mkTensor [1; 1]%nat [0].

(** ** Division by zero *)


(** A scalar that is [nan] or at least [bound], and one that is a number
    and at least [bound]. *)
Definition nan_or_at_least (bound : Q) (s : scalar) : Prop :=
  match s with
  | Num q => bound <= q
  | NaN => True
  end.




(** A matrix with [d] columns. *)
Definition rectangular (d : nat) (a : mat) : Prop := Forall (fun row : vec => length row = d) a.

(** Values the primitives take on a batch whose rows are all equal: every
    exponential of the density estimates is [exp(0)]. *)
Definition constant_one (x : Q) : Q := 1.
Definition constant_zero (x : Q) : Q := 0.

(** Two terms for the examples, and a manager that has recorded them. *)
Definition demo_terms : list term :=
  [("x", 1, Tensor (Num 2)); ("y", 1 # 2, Tensor (Num 4))].

Definition demo_history_xy : gmap string (list scalar) :=
  {["x" := [Num 1]; "y" := []]}.

(** The history [demo_history_xy] after the commit of the two terms. *)
Definition demo_committed_xy : gmap string (list scalar) :=
  {["x" := [Num (1 + 1 * 2)]; "y" := [Num ((1 # 2) * 4)]]}.

Definition demo_recorded : LossManager :=
  {| reg_params := []; l1_coeff := 0;
     loss_history := Some demo_history_xy;
     names := ["x"; "y"]; weights := [1; 1 # 2];
     losses := [Tensor (Num 2); Tensor (Num 4)] |}.

Definition demo_no_history : LossManager :=
  {| reg_params := []; l1_coeff := 0; loss_history := None;
     names := ["x"; "y"]; weights := [1; 1 # 2];
     losses := [Tensor (Num 2); Tensor (Num 4)] |}.

(** A model whose only parameters are a bias and a frozen weight. *)
Definition demo_frozen_model : list (string * Param) :=
  [("fc.bias", mkParam true [3]%nat [0; 0; 0]);
   ("fc.weight", mkParam false [2; 3]%nat [1; 2; 3; 4; 5; 6])].

Definition demo_ops : list op :=
  [OpAdd "x" 1 (Tensor (Num 2)); OpCommit; OpTotal; OpReset;
   OpAdd "x" 1 (Tensor (Num 3)); OpCommit].

(** ** Further notions used to describe the code *)

(** Two scalars with the same value: rationals are compared as numbers,
    [nan] only matches [nan]. *)
Definition scalar_eq (a b : scalar) : Prop :=
  match a, b with
  | Num x, Num y => x == y
  | NaN, NaN => True
  | _, _ => False
  end.

(** How one commit may change the list of one name: an empty list gets at
    most one entry, a non-empty list keeps its length and all entries but
    the last. *)
Definition extends (l l' : list scalar) : Prop :=
  (l = [] /\ (length l' <= 1)%nat) \/
  (exists entries recent recent', l = entries ++ [recent] /\ l' = entries ++ [recent']).

(** Two values with the same content, both tensors or both numbers of
    Python. *)
Definition value_eq (a b : value) : Prop :=
  match a, b with
  | Tensor x, Tensor y => scalar_eq x y
  | PyNumber x, PyNumber y => scalar_eq x y
  | _, _ => False
  end.

(** What the recorded terms of positive weight bring to the name [name],
    in the order of recording: [weight * value] for each term recorded
    under that name with [0 < weight]. *)
Fixpoint contributions (name : string) (ts : list term) : list scalar :=
  match ts with
  | [] => []
  | (n, w, v) :: r =>
      if Qlt_le_dec 0 w then
        if decide (n = name) then smul w (content v) :: contributions name r
        else contributions name r
      else contributions name r
  end.

(** A list of history entries after the contributions [cs] have been
    committed to it: they are added, one after the other, to its last entry,
    which the first of them creates when the list is empty. *)
Definition merged (l cs : list scalar) : list scalar :=
  match cs with
  | [] => l
  | c :: cs' =>
      match l with
      | [] => [fold_left sadd cs' c]
      | _ :: _ => removelast l ++ [fold_left sadd cs (List.last l NaN)]
      end
  end.

(** [numel]: the number of entries of a tensor of the given size. *)
Definition numel (sz : list nat) : nat := fold_right Nat.mul 1%nat sz.

(** The entries of all the given parameters. *)
Definition count_params (params : list Param) : nat :=
  fold_right Nat.add 0%nat (map (fun p => numel (size p)) params).

(** A manager whose two recorded terms have no positive weight, with a
    history that has no slot at all. *)
Definition demo_unweighted : LossManager :=
  {| reg_params := []; l1_coeff := 0; loss_history := Some ∅;
     names := ["a"; "b"]; weights := [0; -1];
     losses := [Tensor (Num 2); Tensor (Num 4)] |}.

(** A manager with nothing recorded and a slot for the L1 term. *)
Definition demo_l1_manager : LossManager :=
  {| reg_params := []; l1_coeff := 0;
     loss_history := Some {["l1_loss" := []]};
     names := []; weights := []; losses := [] |}.

(** The parameters [__init__] retains. *)
Definition regularizable_params (model : list (string * Param)) : list Param :=
  map snd (filter (fun e => Is_true (regularizable e)) model).

(** A model with a trainable zero-dimensional parameter next to a layer. *)
Definition demo_scalar_model : list (string * Param) :=
  [("fc.weight", mkParam true [2; 3]%nat [1; 2; 3; 4; 5; 6]);
   ("scale", mkParam true [] [1])].

(** Two weights of 10 and 20 entries, with a bias and a frozen weight. *)
Definition demo_two_layers : list (string * Param) :=
  [("fc1.weight", mkParam true [2; 5]%nat (replicate 10 1));
   ("fc1.bias", mkParam true [2]%nat [0; 0]);
   ("fc2.weight", mkParam true [4; 5]%nat (replicate 20 1));
   ("frozen.weight", mkParam false [7]%nat (replicate 7 1))].

(** A rational function that, like the exponential, is 1 at 0 and lies on
    or above the line [1 + x]. *)
Definition above_tangent (x : Q) : Q := 1 + x + x * x.

(** The tensor of the given shape with [n] entries, all zero. *)
Definition zeros (shape : list nat) (n : nat) : tensor Q := mkTensor shape (replicate n 0).

(** A generator without state for the examples: its draws are all 0 or all
    1, and its choice is the first candidate. *)
Definition low_draw (g : unit) : Q * unit := (0, g).
Definition high_draw (g : unit) : Q * unit := (1, g).
Definition first_choice (candidates : list Z) (g : unit) : Z * unit := (hd 0%Z candidates, g).
Definition identity_permutation (n : nat) (g : unit) : list Z * unit := (arange n, g).

(** A discriminator for the examples: one probability per row. *)
Definition demo_discriminator (input : mat) : result (tensor Q) :=
  Ok (mkTensor [length input; 1%nat] (map (fun _ => 1 # 2) input)).

(** A position of a batch of [n] rows. *)
Definition in_range (n : nat) (j : Z) : Prop := (0 <= j < Z.of_nat n)%Z.
(** ** Properties of the accumulator *)

Lemma Qgtb_lt a b : Qgtb a b = true <-> b < a.
Proof.
  unfold Qgtb. rewrite negb_true_iff.
  split; intros H.
  - apply Qnot_le_lt. intros Hle. apply Qle_bool_iff in Hle. congruence.
  - destruct (Qle_bool a b) eqn:E; [|reflexivity].
    apply Qle_bool_iff in E. exfalso. exact (Qlt_not_le _ _ H E).
Qed.

Lemma Qgtb_not_lt a b : Qgtb a b = false <-> ~ b < a.
Proof.
  rewrite <- Qgtb_lt. destruct (Qgtb a b); split; try discriminate; auto.
  intros H. exfalso. apply H. reflexivity.
Qed.

Lemma comprehension_seq {B} (f : nat -> result B) (l : list B) (k : nat) :
  (forall i x, l !! i = Some x -> f (k + i)%nat = Ok x) ->
  comprehension f (seq k (length l)) = Ok l.
Proof.
  revert k. induction l as [|b l IH]; intros k Hf; simpl; [reflexivity|].
  pose proof (Hf 0%nat b eq_refl) as Hk.
  replace (k + 0)%nat with k in Hk by lia.
  rewrite Hk. simpl. rewrite (IH (S k)).
  - reflexivity.
  - intros i x Hi. replace (S k + i)%nat with (k + S i)%nat by lia. apply Hf. exact Hi.
Qed.

Lemma holds_add self ts name w v :
  holds self ts -> holds (addToLosses name w v self) (ts ++ [(name, w, v)]).
Proof.
  intros (Hn & Hw & Hl). unfold holds. simpl.
  rewrite !map_app, Hn, Hw, Hl. auto.
Qed.

Lemma holds_add_all ts' self ts :
  holds self ts -> holds (add_all ts' self) (ts ++ ts').
Proof.
  revert self ts. induction ts' as [|[[name w] v] ts' IH]; intros self ts H; simpl.
  - rewrite app_nil_r. exact H.
  - change (add_all ((name, w, v) :: ts') self)
      with (add_all ts' (addToLosses name w v self)).
    rewrite (cons_middle (name, w, v) ts ts'), app_assoc.
    apply IH. apply holds_add. exact H.
Qed.

Lemma holds_reset self : holds (resetLosses self) [].
Proof. unfold holds. simpl. auto. Qed.

Lemma holds_lengths self ts :
  holds self ts ->
  length (names self) = length ts /\
  length (weights self) = length ts /\
  length (losses self) = length ts.
Proof.
  intros (Hn & Hw & Hl). rewrite Hn, Hw, Hl. rewrite !length_map. auto.
Qed.

Lemma holds_zip3 self ts :
  holds self ts -> zip3 (names self) (weights self) (losses self) = ts.
Proof.
  intros (Hn & Hw & Hl). rewrite Hn, Hw, Hl. clear.
  induction ts as [|[[name w] v] ts IH]; simpl; [reflexivity|].
  rewrite IH. reflexivity.
Qed.

Lemma weighted_sum_from_fold acc ts :
  weighted_sum_from acc ts =
  fold_left vadd (map (fun t => vmul (term_weight t) (term_value t)) ts) acc.
Proof.
  revert acc. induction ts as [|[[name w] v] ts IH]; intros acc; simpl; [reflexivity|].
  apply IH.
Qed.

Lemma computeTotalLoss_holds self ts :
  holds self ts -> computeTotalLoss self = Ok (weighted_sum ts).
Proof.
  intros (Hn & Hw & Hl). unfold computeTotalLoss.
  set (products := map (fun t => vmul (term_weight t) (term_value t)) ts).
  assert (Hlen : length (losses self) = length products).
  { unfold products. rewrite Hl, !length_map. reflexivity. }
  rewrite Hlen, (comprehension_seq _ products 0).
  - simpl. unfold weighted_sum, pysum. rewrite weighted_sum_from_fold. reflexivity.
  - intros i x Hi. simpl. unfold products in Hi.
    rewrite list_lookup_fmap in Hi.
    destruct (ts !! i) as [t|] eqn:Ht; [|discriminate].
    simpl in Hi. injection Hi as <-.
    unfold getitem. rewrite Hw, Hl, !list_lookup_fmap, Ht. reflexivity.
Qed.

Lemma init_holds model l1_reg history self :
  __init__ model l1_reg history = Ok self -> holds self [].
Proof.
  unfold __init__. intros H.
  destruct (n_params_of _) as [n|]; [|discriminate]. simpl in H.
  destruct (float_div_int l1_reg n) as [c|]; [|discriminate]. simpl in H.
  injection H as <-. unfold holds. simpl. auto.
Qed.

Lemma commit_loop_keeps_lists self :
  names (updateLossHistory self).2 = names self /\
  weights (updateLossHistory self).2 = weights self /\
  losses (updateLossHistory self).2 = losses self.
Proof.
  unfold updateLossHistory. destruct (loss_history self) as [h|]; [|auto].
  destruct (commit_loop _ h) as [r h']. simpl. auto.
Qed.

Lemma holds_step self ts o : holds self ts -> holds (step self o) (record_op ts o).
Proof.
  intros H. destruct o as [name w v| | |]; simpl.
  - apply holds_add. exact H.
  - exact H.
  - destruct (commit_loop_keeps_lists self) as (Hn & Hw & Hl).
    destruct H as (Hn' & Hw' & Hl'). unfold holds. rewrite Hn, Hw, Hl. auto.
  - apply holds_reset.
Qed.

Lemma holds_run ops self ts :
  holds self ts -> holds (run ops self) (fold_left record_op ops ts).
Proof.
  revert self ts. induction ops as [|o ops IH]; intros self ts H; simpl; [exact H|].
  apply IH. apply holds_step. exact H.
Qed.

(** C1. After construction or a reset, whatever terms are then added,
    [computeTotalLoss] returns their weighted sum taken in insertion order;
    with no term added it returns zero. *)
Theorem computeTotalLoss_weighted_sum :
  (forall (self : LossManager) (ts : list term),
      computeTotalLoss (add_all ts (resetLosses self)) = Ok (weighted_sum ts)) /\
  (forall model l1_reg history (self : LossManager) (ts : list term),
      __init__ model l1_reg history = Ok self ->
      computeTotalLoss (add_all ts self) = Ok (weighted_sum ts)) /\
  (forall (self : LossManager), computeTotalLoss (resetLosses self) = Ok (PyNumber (Num 0))).
Proof.
  split; [|split].
  - intros self ts. apply computeTotalLoss_holds.
    apply (holds_add_all ts (resetLosses self) []). apply holds_reset.
  - intros model l1_reg history self ts Hinit. apply computeTotalLoss_holds.
    apply (holds_add_all ts self []). exact (init_holds _ _ _ _ Hinit).
  - intros self. reflexivity.
Qed.

(** C4. From construction on, whatever calls are made, the three lists hold
    the components of the terms added since the last reset, index by index,
    so they have one length; an add extends all three by its term and a
    reset empties all three. *)
Theorem lockstep_invariant model l1_reg history (self : LossManager) (ops : list op) :
  __init__ model l1_reg history = Ok self ->
  holds (run ops self) (recorded ops) /\
  length (names (run ops self)) = length (weights (run ops self)) /\
  length (weights (run ops self)) = length (losses (run ops self)) /\
  (forall i, (i < length (recorded ops))%nat ->
     exists t, recorded ops !! i = Some t /\
       names (run ops self) !! i = Some (term_name t) /\
       weights (run ops self) !! i = Some (term_weight t) /\
       losses (run ops self) !! i = Some (term_value t)) /\
  (forall name w v,
     names (addToLosses name w v (run ops self)) = names (run ops self) ++ [name] /\
     weights (addToLosses name w v (run ops self)) = weights (run ops self) ++ [w] /\
     losses (addToLosses name w v (run ops self)) = losses (run ops self) ++ [v]) /\
  names (resetLosses (run ops self)) = [] /\
  weights (resetLosses (run ops self)) = [] /\
  losses (resetLosses (run ops self)) = [].
Proof.
  intros Hinit.
  assert (H : holds (run ops self) (recorded ops)).
  { apply holds_run. exact (init_holds _ _ _ _ Hinit). }
  destruct (holds_lengths _ _ H) as (Ln & Lw & Ll).
  split; [exact H|]. split; [congruence|]. split; [congruence|].
  split; [|split; [intros; simpl; auto | simpl; auto]].
  intros i Hi. destruct H as (Hn & Hw & Hl).
  destruct (lookup_lt_is_Some_2 (recorded ops) i Hi) as [t Ht].
  exists t. rewrite Hn, Hw, Hl, !list_lookup_fmap, Ht. simpl. auto.
Qed.

(** C5. A reset empties the three lists and leaves the history, the
    regularizable parameters and the L1 coefficient as they were; the total
    of a freshly reset manager is zero and its three lists have length
    zero. *)
Theorem resetLosses_frame (self : LossManager) :
  names (resetLosses self) = [] /\
  weights (resetLosses self) = [] /\
  losses (resetLosses self) = [] /\
  loss_history (resetLosses self) = loss_history self /\
  reg_params (resetLosses self) = reg_params self /\
  l1_coeff (resetLosses self) = l1_coeff self /\
  computeTotalLoss (resetLosses self) = Ok (PyNumber (Num 0)) /\
  length (names (resetLosses self)) = 0%nat /\
  length (weights (resetLosses self)) = 0%nat /\
  length (losses (resetLosses self)) = 0%nat.
Proof. repeat split. Qed.

Lemma iadd_last_snoc entries recent x :
  iadd_last (entries ++ [recent]) x = entries ++ [sadd recent x].
Proof.
  induction entries as [|e es IH]; simpl; [reflexivity|].
  rewrite IH. destruct es; reflexivity.
Qed.

Lemma nonempty_snoc {A} (l : list A) :
  (0 <? length l)%nat = true -> exists entries recent, l = entries ++ [recent].
Proof.
  destruct l as [|a l] using rev_ind; simpl; [discriminate|].
  intros _. eauto.
Qed.

Lemma registered_insert h ts name l :
  is_Some (h !! name) -> registered h ts -> registered (<[name := l]> h) ts.
Proof.
  intros Hs Hr n w v Hin Hw. destruct (decide (name = n)) as [<-|Hne].
  - rewrite lookup_insert_eq. eauto.
  - rewrite lookup_insert_ne by exact Hne. exact (Hr n w v Hin Hw).
Qed.

Lemma commits_commit_loop ts h h' :
  commits h ts h' -> commit_loop ts h = (Ok tt, h').
Proof.
  induction 1 as [h|h h' name w v ts Hw _ IH
                  |h h' name w x ts entries recent Hw Hl _ IH
                  |h h' name w x ts Hw Hl _ IH].
  - reflexivity.
  - cbn [commit_loop]. unfold commit_term.
    rewrite (proj2 (Qgtb_not_lt w 0) Hw). exact IH.
  - cbn [commit_loop]. unfold commit_term.
    rewrite (proj2 (Qgtb_lt w 0) Hw), Hl.
    replace (0 <? length (entries ++ [recent]))%nat with true
      by (rewrite length_app; simpl; symmetry; apply Nat.ltb_lt; lia).
    cbn [item rbind]. rewrite iadd_last_snoc. exact IH.
  - cbn [commit_loop]. unfold commit_term.
    rewrite (proj2 (Qgtb_lt w 0) Hw), Hl. simpl. exact IH.
Qed.

Lemma commits_functional ts h h1 h2 :
  commits h ts h1 -> commits h ts h2 -> h1 = h2.
Proof.
  intros H1 H2.
  pose proof (commits_commit_loop _ _ _ H1) as E1.
  pose proof (commits_commit_loop _ _ _ H2) as E2.
  congruence.
Qed.

Lemma tensors_tail t ts : tensors (t :: ts) -> tensors ts.
Proof.
  intros H name w v Hin Hw.
  apply (H name w v); [apply elem_of_cons; auto | exact Hw].
Qed.

Lemma commits_exists ts h :
  registered h ts -> tensors ts -> exists h', commits h ts h'.
Proof.
  revert h. induction ts as [|[[name w] v] ts IH]; intros h Hr Ht.
  - exists h. constructor.
  - assert (Hr' : registered h ts).
    { intros n' w' v' Hin. apply (Hr n' w' v'). apply elem_of_cons. auto. }
    pose proof (tensors_tail _ _ Ht) as Ht'.
    destruct (Qgtb w 0) eqn:Hw.
    + apply Qgtb_lt in Hw.
      destruct (Ht name w v) as [x ->]; [apply elem_of_cons; auto | exact Hw |].
      destruct (Hr name w (Tensor x)) as [l Hl]; [apply elem_of_cons; auto | exact Hw |].
      destruct l as [|recent entries _] using rev_ind.
      * destruct (IH (<[name := [smul w x]]> h)) as [h' Hc];
          [apply registered_insert; [rewrite Hl; eauto | exact Hr'] | exact Ht' |].
        exists h'. eapply commits_append; eassumption.
      * destruct (IH (<[name := entries ++ [sadd recent (smul w x)]]> h)) as [h' Hc];
          [apply registered_insert; [rewrite Hl; eauto | exact Hr'] | exact Ht' |].
        exists h'. eapply commits_merge; eassumption.
    + apply Qgtb_not_lt in Hw.
      destruct (IH h Hr' Ht') as [h' Hc].
      exists h'. apply commits_skip; assumption.
Qed.

(** C2. With a history configured, a commit goes through the recorded
    terms in order and handles exactly those of positive weight, merging
    [weight * value] into the most recent entry of the term's name or, when
    the name has no entry yet, appending it; the history it leaves is the
    one so obtained, the call returns, and the three lists, the parameters
    and the coefficient are as before.  Such a history exists as soon as
    the names of the terms of positive weight have their slot and their
    values are tensors.  Without a history the call changes nothing. *)
Theorem updateLossHistory_commits (self : LossManager) :
  (loss_history self = None -> updateLossHistory self = (Ok tt, self)) /\
  (forall h h',
      loss_history self = Some h ->
      commits h (zip3 (names self) (weights self) (losses self)) h' ->
      (updateLossHistory self).1 = Ok tt /\
      loss_history (updateLossHistory self).2 = Some h' /\
      names (updateLossHistory self).2 = names self /\
      weights (updateLossHistory self).2 = weights self /\
      losses (updateLossHistory self).2 = losses self /\
      reg_params (updateLossHistory self).2 = reg_params self /\
      l1_coeff (updateLossHistory self).2 = l1_coeff self) /\
  (forall h,
      loss_history self = Some h ->
      registered h (zip3 (names self) (weights self) (losses self)) ->
      tensors (zip3 (names self) (weights self) (losses self)) ->
      exists h', commits h (zip3 (names self) (weights self) (losses self)) h').
Proof.
  split; [|split].
  - unfold updateLossHistory. intros ->. reflexivity.
  - intros h h' Hh Hc. unfold updateLossHistory. rewrite Hh.
    rewrite (commits_commit_loop _ _ _ Hc). simpl. repeat split.
  - intros h _ Hr Ht. apply commits_exists; assumption.
Qed.

Lemma commit_term_dom h t h' k :
  commit_term h t = Ok h' -> h' !! k = None <-> h !! k = None.
Proof.
  destruct t as [[name w] v]. unfold commit_term.
  destruct (Qgtb w 0); [|intros [= <-]; reflexivity].
  destruct (h !! name) as [l|] eqn:Hl; [|discriminate].
  assert (Hins : forall l', <[name := l']> h !! k = None <-> h !! k = None).
  { intros l'. destruct (decide (name = k)) as [<-|Hne].
    - rewrite lookup_insert_eq, Hl. split; discriminate.
    - rewrite lookup_insert_ne by exact Hne. reflexivity. }
  destruct v as [x|x]; [|destruct (0 <? length l)%nat; discriminate].
  destruct (0 <? length l)%nat; intros [= <-]; apply Hins.
Qed.

Lemma commit_loop_raises ts h t :
  t ∈ ts -> positive t = true -> h !! term_name t = None ->
  exists e h',
    commit_loop ts h = (Raise e, h') /\
    ((exists key, e = KeyError key /\ h !! key = None) \/
     (e = AttributeError /\ exists name w x, (name, w, PyNumber x) ∈ ts /\ 0 < w)).
Proof.
  revert h. induction ts as [|t0 ts IH]; intros h Hin Hpos Hnone.
  - apply elem_of_nil in Hin. destruct Hin.
  - simpl. destruct (commit_term h t0) as [h0|e] eqn:Hc.
    + apply elem_of_cons in Hin as [->|Hin].
      * exfalso. destruct t0 as [[name w] v]. unfold commit_term in Hc.
        unfold positive, term_weight in Hpos. simpl in Hpos. rewrite Hpos in Hc.
        unfold term_name in Hnone. simpl in Hnone. rewrite Hnone in Hc. discriminate.
      * destruct (IH h0 Hin Hpos) as (e & h' & Hloop & Hcase).
        { apply (commit_term_dom _ _ _ _ Hc). exact Hnone. }
        exists e, h'. split; [exact Hloop|].
        destruct Hcase as [(key & -> & Hkey)|(-> & name & w & x & Hx & Hw)].
        -- left. exists key. split; [reflexivity|].
           apply (commit_term_dom _ _ _ _ Hc). exact Hkey.
        -- right. split; [reflexivity|]. exists name, w, x.
           split; [apply elem_of_cons; auto | exact Hw].
    + destruct t0 as [[name w] v]. unfold commit_term in Hc.
      destruct (Qgtb w 0) eqn:Hw; [|discriminate].
      apply Qgtb_lt in Hw.
      destruct (h !! name) as [l|] eqn:Hl.
      * destruct v as [x|x]; [destruct (0 <? length l)%nat; discriminate|].
        assert (e = AttributeError) as ->
          by (destruct (0 <? length l)%nat; simpl in Hc; congruence).
        exists AttributeError, h. split; [reflexivity|]. right.
        split; [reflexivity|]. exists name, w, x.
        split; [apply elem_of_cons; auto | exact Hw].
      * injection Hc as <-. exists (KeyError name), h. split; [reflexivity|].
        left. eauto.
Qed.

(** C8. A model without any trainable non-bias parameter makes the
    constructor raise (the division by the zero parameter count), and a
    commit raises when a recorded term of positive weight has a name the
    history has no slot for: a [KeyError] for a name without a slot, when
    the values recorded with a positive weight are tensors, and otherwise
    that or the [AttributeError] of a value that is none; nothing catches
    either exception. *)
Theorem precondition_violations_raise :
  (forall (model : list (string * Param)) l1_reg history,
      (forall name p, (name, p) ∈ model ->
         str_contains ".bias" name = true \/ requires_grad p = false) ->
      __init__ model l1_reg history = Raise ZeroDivisionError) /\
  (forall (self : LossManager) h name w v,
      loss_history self = Some h ->
      (name, w, v) ∈ zip3 (names self) (weights self) (losses self) ->
      0 < w ->
      h !! name = None ->
      (exists e, (updateLossHistory self).1 = Raise e /\
         (e = AttributeError \/ exists key, e = KeyError key /\ h !! key = None)) /\
      (tensors (zip3 (names self) (weights self) (losses self)) ->
       exists key, (updateLossHistory self).1 = Raise (KeyError key) /\ h !! key = None)).
Proof.
  split.
  - intros model l1_reg history Hnone. unfold __init__.
    assert (Hf : filter (fun e => Is_true (regularizable e)) model = []).
    { clear l1_reg history. induction model as [|[name p] model IH]; [reflexivity|].
      rewrite filter_cons_False.
      - apply IH. intros name' p' Hin. apply (Hnone name' p'). apply elem_of_cons. auto.
      - unfold regularizable.
        destruct (Hnone name p) as [Hb|Hg]; [apply elem_of_cons; auto | |].
        + rewrite Hb. intros [].
        + rewrite Hg, andb_false_r. intros []. }
    rewrite Hf. reflexivity.
  - intros self h name w v Hh Hin Hw Hnone. unfold updateLossHistory. rewrite Hh.
    destruct (commit_loop_raises _ h (name, w, v) Hin) as (e & h' & Hloop & Hcase).
    + unfold positive, term_weight. simpl. apply Qgtb_lt. exact Hw.
    + exact Hnone.
    + rewrite Hloop. simpl. split.
      * exists e. split; [reflexivity|].
        destruct Hcase as [Hkey|[-> _]]; [right; exact Hkey | left; reflexivity].
      * intros Ht.
        destruct Hcase as [(key & -> & Hkey)|(_ & name' & w' & x & Hx & Hw')].
        -- eauto.
        -- destruct (Ht name' w' (PyNumber x) Hx Hw') as [y Hy]. discriminate.
Qed.

Example init_demo : __init__ demo_model 1 (Some demo_history) = Ok demo_manager.
Proof. reflexivity. Qed.

Lemma two_commits_general (self : LossManager) h :
  loss_history self = Some h ->
  h !! "x" = Some [] ->
  names self = [] -> weights self = [] -> losses self = [] ->
  two_commits self =
    (Ok tt,
     with_history (<["x" := [Num 7]]> h)
       (addToLosses "x" 1 (Tensor (Num 3)) (addToLosses "x" 1 (Tensor (Num 2)) self))).
Proof.
  destruct self as [rp c oh ns ws ls]. simpl.
  intros -> Hx -> -> ->.
  unfold two_commits, updateLossHistory. simpl.
  rewrite Hx. simpl.
  rewrite lookup_insert_eq. simpl.
  rewrite insert_insert_eq, lookup_insert_eq. simpl.
  rewrite insert_insert_eq. reflexivity.
Qed.

(** C3, as the code has it.  With an empty slot for "x" and no term
    recorded, add "x" 1 2.0; commit; add "x" 1 3.0; commit leaves one single
    entry for "x", and that entry is 7.0: the second commit goes through
    both recorded terms again. *)
Theorem two_commits_merge (self : LossManager) h :
  loss_history self = Some h ->
  h !! "x" = Some [] ->
  names self = [] -> weights self = [] -> losses self = [] ->
  (two_commits self).1 = Ok tt /\
  history_entries (two_commits self).2 "x" = Some [Num 7] /\
  history_last (two_commits self).2 "x" = Some (Num 7).
Proof.
  intros Hh Hx Hn Hw Hl.
  rewrite (two_commits_general self h Hh Hx Hn Hw Hl).
  unfold history_entries, history_last. simpl.
  rewrite lookup_insert_eq. auto.
Qed.

Lemma two_commits_merge_witness :
  (two_commits demo_manager).1 = Ok tt /\
  history_entries (two_commits demo_manager).2 "x" = Some [Num 7] /\
  history_last (two_commits demo_manager).2 "x" = Some (Num 7).
Proof.
  apply (two_commits_merge demo_manager demo_history); reflexivity.
Defined.

(** C3 as the spec states it fails: the last entry is 7.0, not 5.0. *)
Lemma two_commits_last_not_5 :
  ~ (exists q, history_last (two_commits demo_manager).2 "x" = Some (Num q) /\ q == 5).
Proof.
  intros (q & Hq & H5).
  vm_compute in Hq. injection Hq as <-. discriminate H5.
Qed.

Example two_commits_reset_demo :
  history_entries (two_commits_reset demo_manager).2 "x" = Some [Num 5].
Proof. reflexivity. Qed.


Lemma computeTotalLoss_weighted_sum_witness :
  computeTotalLoss (add_all demo_terms demo_manager) = Ok (weighted_sum demo_terms).
Proof.
  apply (proj1 (proj2 computeTotalLoss_weighted_sum)
           demo_model 1 (Some demo_history) demo_manager demo_terms).
  reflexivity.
Defined.

Example computeTotalLoss_demo :
  computeTotalLoss (add_all demo_terms demo_manager)
  = Ok (Tensor (Num (0 + 1 * 2 + (1 # 2) * 4))).
Proof. reflexivity. Qed.

Lemma lockstep_invariant_witness :
  holds (run demo_ops demo_manager) (recorded demo_ops) /\
  length (names (run demo_ops demo_manager)) = length (weights (run demo_ops demo_manager)) /\
  length (weights (run demo_ops demo_manager)) = length (losses (run demo_ops demo_manager)).
Proof.
  pose proof (lockstep_invariant demo_model 1 (Some demo_history) demo_manager demo_ops
                eq_refl) as (H & Hnw & Hwl & _).
  exact (conj H (conj Hnw Hwl)).
Defined.

Example lockstep_demo :
  names (run demo_ops demo_manager) = ["x"] /\
  weights (run demo_ops demo_manager) = [1] /\
  losses (run demo_ops demo_manager) = [Tensor (Num 3)] /\
  history_entries (run demo_ops demo_manager) "x" = Some [Num 5].
Proof. repeat split. Qed.

Lemma updateLossHistory_commits_witness :
  updateLossHistory demo_no_history = (Ok tt, demo_no_history) /\
  (updateLossHistory demo_recorded).1 = Ok tt /\
  loss_history (updateLossHistory demo_recorded).2 = Some demo_committed_xy /\
  names (updateLossHistory demo_recorded).2 = ["x"; "y"] /\
  weights (updateLossHistory demo_recorded).2 = [1; 1 # 2] /\
  losses (updateLossHistory demo_recorded).2 = [Tensor (Num 2); Tensor (Num 4)].
Proof.
  split.
  - apply (proj1 (updateLossHistory_commits demo_no_history)). reflexivity.
  - destruct (proj1 (proj2 (updateLossHistory_commits demo_recorded))
                demo_history_xy demo_committed_xy eq_refl)
      as (Hr & Hh & Hn & Hw & Hl & _).
    + apply (commits_merge _ _ "x" 1 (Num 2) _ [] (Num 1)); [reflexivity..|].
      apply (commits_append _ _ "y" (1 # 2) (Num 4) []); [reflexivity..|].
      apply commits_done.
    + exact (conj Hr (conj Hh (conj Hn (conj Hw Hl)))).
Defined.

Example updateLossHistory_demo :
  history_entries (updateLossHistory demo_recorded).2 "x" = Some [Num (1 + 1 * 2)] /\
  history_entries (updateLossHistory demo_recorded).2 "y" = Some [Num ((1 # 2) * 4)].
Proof. split; reflexivity. Qed.

Lemma precondition_violations_raise_witness :
  __init__ demo_frozen_model 1 None = Raise ZeroDivisionError /\
  exists key,
    (updateLossHistory (addToLosses "z" 1 (Tensor (Num 2)) demo_manager)).1
    = Raise (KeyError key) /\
    demo_history !! key = None.
Proof.
  split.
  - apply (proj1 precondition_violations_raise).
    intros name p Hin.
    apply elem_of_cons in Hin as [[= -> ->]|Hin]; [left; reflexivity|].
    apply elem_of_cons in Hin as [[= -> ->]|Hin]; [right; reflexivity|].
    apply elem_of_nil in Hin. destruct Hin.
  - apply (proj2 precondition_violations_raise
             (addToLosses "z" 1 (Tensor (Num 2)) demo_manager) demo_history
             "z" 1 (Tensor (Num 2))).
    + reflexivity.
    + simpl. apply elem_of_cons. left. reflexivity.
    + reflexivity.
    + reflexivity.
    + intros name w v Hin _. simpl in Hin.
      apply elem_of_cons in Hin as [[= _ _ ->]|Hin]; [eauto|].
      apply elem_of_nil in Hin. destruct Hin.
Defined.

Example init_frozen_demo : __init__ demo_frozen_model 1 None = Raise ZeroDivisionError.
Proof. reflexivity. Qed.

Example commit_unregistered_demo :
  (updateLossHistory (addToLosses "z" 1 (Tensor (Num 2)) demo_manager)).1
  = Raise (KeyError "z").
Proof. reflexivity. Qed.

(** ** Properties of the loss functions *)

Lemma pointwise_ok f (a b : vec) :
  length a = length b -> pointwise f a b = Ok (zip_with f a b).
Proof. intros H. unfold pointwise. rewrite decide_True by exact H. reflexivity. Qed.

Lemma pointwise2_ok f (a b : mat) :
  same_shape a b -> pointwise2 f a b = Ok (zip_with (zip_with f) a b).
Proof.
  intros H. unfold pointwise2.
  rewrite decide_True by (eapply Forall2_length; exact H).
  induction H as [|r1 r2 a b Hr H IH]; [reflexivity|].
  simpl. rewrite (pointwise_ok f r1 r2 Hr). simpl. rewrite IH. reflexivity.
Qed.

Lemma tsum_from (xs : vec) (a : Q) : fold_left Qplus xs a == a + tsum xs.
Proof.
  unfold tsum. revert a. induction xs as [|x xs IH]; intros a; simpl.
  - ring.
  - rewrite (IH (a + x)), (IH (0 + x)). ring.
Qed.

Lemma tsum_cons (x : Q) (xs : vec) : tsum (x :: xs) == x + tsum xs.
Proof. unfold tsum at 1. simpl. rewrite tsum_from. ring. Qed.

Lemma tsum_nonneg (xs : vec) : Forall (fun x => 0 <= x) xs -> 0 <= tsum xs.
Proof.
  induction 1 as [|x xs Hx _ IH]; [unfold tsum; simpl; apply Qle_refl|].
  rewrite tsum_cons. replace 0 with (0 + 0) by reflexivity.
  apply Qplus_le_compat; assumption.
Qed.

Lemma tsum_zero (xs : vec) : Forall (fun x => x == 0) xs -> tsum xs == 0.
Proof.
  induction 1 as [|x xs Hx _ IH]; [reflexivity|].
  rewrite tsum_cons, Hx, IH. reflexivity.
Qed.

Lemma tsum_pos (xs : vec) :
  Forall (fun x => 0 <= x) xs -> Exists (fun x => 0 < x) xs -> 0 < tsum xs.
Proof.
  intros Hall Hex. induction Hex as [x xs Hx|x xs Hex IH].
  - rewrite tsum_cons. apply Forall_cons in Hall as [_ Hall].
    apply Qlt_le_trans with (x + 0).
    + rewrite Qplus_0_r. exact Hx.
    + apply Qplus_le_r. apply tsum_nonneg. exact Hall.
  - rewrite tsum_cons. apply Forall_cons in Hall as [Hx Hall].
    apply Qlt_le_trans with (0 + tsum xs).
    + rewrite Qplus_0_l. apply IH. exact Hall.
    + apply Qplus_le_l. exact Hx.
Qed.

Lemma relu_nonneg x : 0 <= relu x.
Proof.
  unfold relu. destruct (Qle_bool x 0) eqn:E; [apply Qle_refl|].
  apply Qlt_le_weak, Qnot_le_lt. intros H. apply Qle_bool_iff in H. congruence.
Qed.

Lemma relu_zero x : x <= 0 -> relu x == 0.
Proof.
  intros H. unfold relu. apply Qle_bool_iff in H. rewrite H. reflexivity.
Qed.

Lemma relu_pos x : 0 < x -> 0 < relu x.
Proof.
  intros H. unfold relu. destruct (Qle_bool x 0) eqn:E; [|exact H].
  apply Qle_bool_iff in E. exfalso. exact (Qlt_not_le _ _ H E).
Qed.

Lemma triplet_margins (s p n : mat) :
  same_shape s p -> same_shape s n ->
  zip_with Qminus (sum1 (map (map pow2) (zip_with (zip_with Qminus) s p)))
                  (sum1 (map (map pow2) (zip_with (zip_with Qminus) s n)))
  = map (fun sample : vec * vec * vec =>
           let '(anchor, pos, neg) := sample in sq_dist anchor pos - sq_dist anchor neg)
        (zip3 s p n).
Proof.
  intros Hp. revert n. induction Hp as [|a b s p _ _ IH]; intros n Hn.
  - inversion Hn. reflexivity.
  - inversion Hn as [|a' c s' n' _ Hn']; subst. simpl.
    rewrite (IH n' Hn'). reflexivity.
Qed.

Lemma triplet_lengths (s p n : mat) :
  same_shape s p -> same_shape s n ->
  length (sum1 (map (map pow2) (zip_with (zip_with Qminus) s p))) =
  length (sum1 (map (map pow2) (zip_with (zip_with Qminus) s n))).
Proof.
  intros Hp Hn. unfold sum1. rewrite !length_map, !length_zip_with.
  rewrite <- (Forall2_length _ _ _ Hp), <- (Forall2_length _ _ _ Hn). reflexivity.
Qed.

Lemma tripletLoss_formula (s p n : mat) weight alpha self :
  same_shape s p -> same_shape s n ->
  tripletLoss s p n weight alpha self =
    (Ok (Tensor (smul weight (triplet_formula alpha s p n))),
     addToLosses "triplet_loss" weight (Tensor (triplet_formula alpha s p n)) self).
Proof.
  intros Hp Hn. unfold tripletLoss, lm_bind, lift, call_addToLosses, lm_ret.
  rewrite (pointwise2_ok _ s p Hp), (pointwise2_ok _ s n Hn).
  rewrite (pointwise_ok _ _ _ (triplet_lengths s p n Hp Hn)).
  rewrite (triplet_margins s p n Hp Hn).
  unfold triplet_formula. rewrite !map_map.
  assert (E : forall l : list (vec * vec * vec),
             map (fun x => relu ((let '(anchor, pos, neg) := x in
                                  sq_dist anchor pos - sq_dist anchor neg) + alpha)) l
             = map (fun sample => let '(anchor, pos, neg) := sample in
                                  relu (sq_dist anchor pos - sq_dist anchor neg + alpha)) l).
  { intros l. apply map_ext. intros [[a b] c]. reflexivity. }
  rewrite E. reflexivity.
Qed.

Lemma zip3_nonempty {A B C} (s : list A) (p : list B) (n : list C) :
  s <> [] -> length s = length p -> length s = length n -> zip3 s p n <> [].
Proof.
  destruct s, p, n; simpl; intros; try discriminate; congruence.
Qed.

Lemma qmean_zero (xs : vec) : Forall (fun x => x == 0) xs -> qmean xs == 0.
Proof.
  intros H. unfold qmean. rewrite (tsum_zero xs H). unfold Qdiv. ring.
Qed.

Lemma qmean_pos (xs : vec) :
  Forall (fun x => 0 <= x) xs -> Exists (fun x => 0 < x) xs -> 0 < qmean xs.
Proof.
  intros Hall Hex. unfold qmean, Qdiv.
  apply Qmult_lt_0_compat; [apply tsum_pos; assumption|].
  apply Qinv_lt_0_compat. destruct xs; [inversion Hex|].
  unfold Qlt. simpl. lia.
Qed.

(** C9, as the code has it.  For a batch with at least one sample,
    [tripletLoss] registers and weights
    [mean(relu(‖anchor-positive‖² - ‖anchor-negative‖² + margin))], the
    default margin being 0.2; that mean is zero when every sample has
    [distance_negative - distance_positive >= margin] and strictly positive
    when some sample has not. *)
Theorem tripletLoss_margin (states p_states n_states : mat) (weight alpha : Q)
    (self : LossManager) :
  states <> [] ->
  same_shape states p_states ->
  same_shape states n_states ->
  exists v,
    triplet_formula alpha states p_states n_states = Num v /\
    tripletLoss states p_states n_states weight alpha self =
      (Ok (Tensor (Num (weight * v))),
       addToLosses "triplet_loss" weight (Tensor (Num v)) self) /\
    tripletLoss_default states p_states n_states weight =
      tripletLoss states p_states n_states weight 0.2 /\
    (Forall (separated alpha) (zip3 states p_states n_states) -> v == 0) /\
    (Exists (fun sample => ~ separated alpha sample) (zip3 states p_states n_states) ->
     0 < v).
Proof.
  intros Hne Hp Hn.
  rewrite (tripletLoss_formula _ _ _ weight alpha self Hp Hn).
  unfold triplet_formula.
  set (terms := map _ (zip3 states p_states n_states)).
  assert (Hterms : terms <> []).
  { unfold terms. intros E. apply fmap_nil_inv in E. revert E.
    apply zip3_nonempty; [exact Hne | |]; eapply Forall2_length; eassumption. }
  exists (qmean terms).
  assert (Hmean : mean terms = Num (qmean terms)).
  { destruct terms; [congruence | reflexivity]. }
  rewrite Hmean. split; [reflexivity|]. split; [reflexivity|]. split; [reflexivity|].
  split.
  - intros Hall. apply qmean_zero. unfold terms. apply Forall_fmap.
    eapply Forall_impl; [exact Hall|]. intros [[a b] c] Hs. simpl. apply relu_zero.
    unfold separated in Hs.
    apply (Qplus_le_l _ _ (sq_dist a c - sq_dist a b - alpha)). ring_simplify.
    apply (Qplus_le_l _ _ alpha). ring_simplify.
    apply (Qle_trans _ _ _ Hs). apply Qle_lteq. right. ring.
  - intros Hex. apply qmean_pos.
    + unfold terms. apply Forall_fmap, Forall_forall. intros [[a b] c] _. simpl.
      apply relu_nonneg.
    + unfold terms. apply Exists_fmap.
      eapply Exists_impl; [exact Hex|]. intros [[a b] c] Hs. simpl. apply relu_pos.
      unfold separated in Hs. apply Qnot_le_lt in Hs.
      apply (Qplus_lt_l _ _ (sq_dist a c - sq_dist a b)). ring_simplify.
      apply (Qlt_le_trans _ _ _ Hs). apply Qle_lteq. right. ring.
Qed.

Lemma tripletLoss_margin_witness :
  exists v,
    triplet_formula 0.2 demo_states demo_p_states demo_n_states = Num v /\
    tripletLoss demo_states demo_p_states demo_n_states 1 0.2 demo_manager =
      (Ok (Tensor (Num (1 * v))),
       addToLosses "triplet_loss" 1 (Tensor (Num v)) demo_manager) /\
    tripletLoss_default demo_states demo_p_states demo_n_states 1 =
      tripletLoss demo_states demo_p_states demo_n_states 1 0.2 /\
    (Forall (separated 0.2) (zip3 demo_states demo_p_states demo_n_states) -> v == 0) /\
    (Exists (fun sample => ~ separated 0.2 sample)
            (zip3 demo_states demo_p_states demo_n_states) -> 0 < v).
Proof.
  apply (tripletLoss_margin demo_states demo_p_states demo_n_states 1 0.2 demo_manager).
  - discriminate.
  - repeat constructor.
  - repeat constructor.
Defined.


(** C9 as the spec states it fails on the batch without samples: every
    sample (there is none) is separated by the margin, and the loss is the
    mean of no value, [nan], not zero. *)
Lemma tripletLoss_empty_batch_not_zero :
  ~ (Forall (separated 0.2) (zip3 ([] : mat) ([] : mat) ([] : mat)) ->
     exists q, (tripletLoss_default [] [] [] 1 demo_manager).1 = Ok (Tensor (Num q)) /\
               q == 0).
Proof.
  intros H. destruct H as (q & Hq & _); [constructor|].
  vm_compute in Hq. discriminate Hq.
Qed.

Example tripletLoss_empty_batch :
  tripletLoss_default [] [] [] 1 demo_manager =
    (Ok (Tensor NaN), addToLosses "triplet_loss" 1 (Tensor NaN) demo_manager).
Proof. reflexivity. Qed.

Example tripletLoss_demo_separated :
  (tripletLoss_default demo_states demo_p_states demo_n_states 1 demo_manager).1
  = Ok (Tensor (Num (0 # 2))).
Proof. reflexivity. Qed.

Example tripletLoss_demo_close :
  (tripletLoss_default demo_states demo_p_states demo_close_n_states 1 demo_manager).1
  = Ok (Tensor (Num (2 # 20))).
Proof. reflexivity. Qed.

(** *** Registration *)

Lemma registers_once_lift {A} (r : result A) (k : A -> M value) name w :
  (forall a, registers_once name w (k a)) ->
  registers_once name w (lm_bind (lift r) k).
Proof.
  intros Hk self. unfold lm_bind, lift. destruct r as [a|e]; [apply Hk | reflexivity].
Qed.

Lemma registers_once_add name w raw_loss :
  registers_once name w
    (lm_bind (call_addToLosses name w raw_loss) (fun _ => lm_ret (vmul w raw_loss))).
Proof. intros self. simpl. eauto. Qed.

Ltac registers :=
  repeat (apply registers_once_lift; intros); try apply registers_once_add.

Section LossFunctionProperties.

Variables th_exp th_log th_sqrt : Q -> Q.
Variable np_pi : Q.
Variable CrossEntropyLoss : tensor Q -> tensor Z -> result scalar.
Variable BCELoss : tensor Q -> tensor Q -> result scalar.
Variable rng : Type.
Variable np_random_rand : rng -> Q * rng.
Variable np_random_choice : list Z -> rng -> Z * rng.
Variable np_random_permutation : nat -> rng -> list Z * rng.

Lemma forwardModelLoss_once pred next weight :
  registers_once "forward_loss" weight (forwardModelLoss pred next weight).
Proof. unfold forwardModelLoss. registers. Qed.

Lemma inverseModelLoss_once pred st weight :
  registers_once "inverse_loss" weight
    (inverseModelLoss CrossEntropyLoss pred st weight).
Proof. unfold inverseModelLoss. registers. Qed.

Lemma l1Loss_once params weight :
  registers_once "l1_loss" weight (l1Loss params weight).
Proof. unfold l1Loss. registers. Qed.

Lemma rewardModelLoss_once pred st weight :
  registers_once "reward_loss" weight
    (rewardModelLoss CrossEntropyLoss pred st weight).
Proof. unfold rewardModelLoss. registers. Qed.

Lemma autoEncoderLoss_once obs decoded_obs next_obs decoded_next_obs weight :
  registers_once "reconstruction_loss" weight
    (autoEncoderLoss obs decoded_obs next_obs decoded_next_obs weight).
Proof. unfold autoEncoderLoss. registers. Qed.

Lemma mutualInformationLoss_once states rewards_st weight :
  registers_once "reward_prior" weight
    (mutualInformationLoss th_exp th_log th_sqrt np_pi states rewards_st weight).
Proof.
  unfold mutualInformationLoss. registers.
  match goal with
  | |- registers_once _ _ (match ?I with Some _ => _ | None => _ end) =>
      destruct I as [i|]; [registers | intros self; reflexivity]
  end.
Qed.

Lemma rewardPriorLoss_once states rewards_st weight :
  registers_once "reward_prior" weight (rewardPriorLoss th_exp states rewards_st weight).
Proof. unfold rewardPriorLoss. registers. Qed.

Lemma episodePriorLoss_once idx episodes states discriminator balanced weight (g : rng) :
  registers_once "episode_prior" weight
    (episodePriorLoss BCELoss rng np_random_rand np_random_choice np_random_permutation
       idx episodes states discriminator balanced weight g).1.
Proof.
  unfold episodePriorLoss. destruct (pyindex episodes idx) as [eps_|e]; simpl.
  - destruct balanced.
    + destruct (balanced_others _ _ _ _ _ _ _) as [sampled g']. simpl. registers.
    + destruct (np_random_permutation _ _) as [p g']. simpl. registers.
  - intros self. reflexivity.
Qed.

Lemma tripletLoss_once states p_states n_states weight alpha :
  registers_once "triplet_loss" weight (tripletLoss states p_states n_states weight alpha).
Proof. unfold tripletLoss. registers. Qed.

Lemma vaeLoss_once decoded next_decoded obs next_obs mu next_mu logvar next_logvar
    weight beta er ep ner nep weight_perceptual :
  registers_once "kl_loss" weight
    (vaeLoss th_exp decoded next_decoded obs next_obs mu next_mu logvar next_logvar
       weight beta false er ep ner nep weight_perceptual).
Proof. unfold vaeLoss. registers. Qed.

End LossFunctionProperties.

Lemma roboticPriorsLoss_four (th_exp th_sqrt : Q -> Q) states next_states minibatch_idx
    dissimilar_pairs same_actions_pairs weight :
  registers_four_priors weight
    (roboticPriorsLoss th_exp th_sqrt states next_states minibatch_idx
       dissimilar_pairs same_actions_pairs weight).
Proof.
  intros self. unfold roboticPriorsLoss, lm_bind, lift.
  repeat match goal with
         | |- context [match ?r with Ok _ => _ | Raise _ => _ end] =>
             destruct r; [|reflexivity]
         end.
  simpl. eauto 10.
Qed.

Lemma vaeLoss_plain (th_exp : Q -> Q)
    decoded next_decoded obs next_obs mu next_mu logvar next_logvar weight beta
    er ep ner nep weight_perceptual self :
  vaeLoss th_exp decoded next_decoded obs next_obs mu next_mu logvar next_logvar
    weight beta false er ep ner nep weight_perceptual self
  = match kl_divergence_of th_exp mu next_mu logvar next_logvar,
          generation_loss_of decoded next_decoded obs next_obs with
    | Ok kl_divergence, Ok generation_loss =>
        let vae_loss := Tensor (sadd generation_loss (smul beta kl_divergence)) in
        (Ok (vmul weight vae_loss), addToLosses "kl_loss" weight vae_loss self)
    | Raise e, _ => (Raise e, self)
    | Ok _, Raise e => (Raise e, self)
    end.
Proof.
  unfold vaeLoss, kl_divergence_of, generation_loss_of, lm_bind, lift,
    call_addToLosses, lm_ret.
  destruct (kl_term th_exp mu logvar) as [kl|e]; simpl; [|reflexivity].
  destruct (kl_term th_exp next_mu next_logvar) as [kl'|e]; simpl; [|reflexivity].
  destruct (mse_loss decoded obs false) as [g|e]; simpl; [|reflexivity].
  destruct (mse_loss next_decoded next_obs false) as [g'|e]; reflexivity.
Qed.

Lemma vaeLoss_perceptual (th_exp : Q -> Q)
    decoded next_decoded obs next_obs mu next_mu logvar next_logvar weight beta
    er ep ner nep weight_perceptual self :
  vaeLoss th_exp decoded next_decoded obs next_obs mu next_mu logvar next_logvar
    weight beta true er ep ner nep weight_perceptual self
  = match kl_divergence_of th_exp mu next_mu logvar next_logvar,
          denoiser_encoding_loss_of er ep ner nep with
    | Ok kl_divergence, Ok denoiser_encoding_loss =>
        (Ok (Tensor (smul weight (sadd (smul weight_perceptual denoiser_encoding_loss)
                                       (smul beta kl_divergence)))),
         addToLosses "kl_loss" beta (Tensor kl_divergence)
           (addToLosses "denoising perceptual similarity" weight_perceptual
              (Tensor denoiser_encoding_loss) self))
    | Raise e, _ => (Raise e, self)
    | Ok _, Raise e => (Raise e, self)
    end.
Proof.
  unfold vaeLoss, kl_divergence_of, denoiser_encoding_loss_of, lm_bind, lift,
    call_addToLosses, lm_ret.
  destruct (kl_term th_exp mu logvar) as [kl|e]; simpl; [|reflexivity].
  destruct (kl_term th_exp next_mu next_logvar) as [kl'|e]; simpl; [|reflexivity].
  destruct (mse_loss_opt er ep false) as [d|e]; simpl; [|reflexivity].
  destruct (mse_loss_opt ner nep false) as [d'|e]; reflexivity.
Qed.

Lemma tsum_fold_right (xs : vec) : tsum xs == fold_right Qplus 0 xs.
Proof.
  induction xs as [|x xs IH]; [reflexivity|].
  rewrite tsum_cons, IH. reflexivity.
Qed.

Lemma kl_term_value (th_exp : Q -> Q) (mu logvar : tensor Q) :
  shape logvar = shape mu ->
  kl_term th_exp mu logvar =
    Ok (- (1 # 2) *
        tsum (zip_with Qminus
                (zip_with Qminus (map (Qplus 1) (elems logvar)) (map pow2 (elems mu)))
                (map th_exp (elems logvar)))).
Proof.
  intros Hs. unfold kl_term, tensor_pointwise, tensor_map. simpl.
  rewrite decide_True by exact Hs. simpl.
  rewrite decide_True by reflexivity. reflexivity.
Qed.

Lemma kl_entries (th_exp : Q -> Q) (mu lv : vec) :
  zip_with Qminus (zip_with Qminus (map (Qplus 1) lv) (map pow2 mu)) (map th_exp lv)
  = map (fun ml : Q * Q => 1 + ml.2 - ml.1 * ml.1 - th_exp ml.2) (zip mu lv).
Proof.
  revert lv. induction mu as [|m mu IH]; intros [|l lv]; simpl; try reflexivity.
  rewrite IH. reflexivity.
Qed.

Lemma kl_term_gaussian_kl (th_exp : Q -> Q) (mu logvar : tensor Q) :
  shape mu = shape logvar ->
  exists k, kl_term th_exp mu logvar = Ok k /\
            k == gaussian_kl th_exp (elems mu) (elems logvar).
Proof.
  intros Hs. rewrite kl_term_value by congruence.
  eexists. split; [reflexivity|].
  unfold gaussian_kl. rewrite kl_entries, tsum_fold_right. reflexivity.
Qed.

Lemma squared_entries (a b : vec) :
  map pow2 (zip_with Qminus a b)
  = map (fun xy : Q * Q => (xy.1 - xy.2) * (xy.1 - xy.2)) (zip a b).
Proof.
  revert b. induction a as [|x a IH]; intros [|y b]; simpl; try reflexivity.
  rewrite IH. reflexivity.
Qed.

Lemma mse_loss_squared_error (a b : tensor Q) :
  shape a = shape b ->
  exists v, mse_loss a b false = Ok (Num v) /\
            v == squared_error (elems a) (elems b).
Proof.
  intros Hs. unfold mse_loss, tensor_pointwise. rewrite decide_True by exact Hs.
  simpl. eexists. split; [reflexivity|].
  unfold squared_error. rewrite squared_entries, tsum_fold_right. reflexivity.
Qed.

(** C10. With the perceptual loss disabled, [vaeLoss] registers one term,
    named 'kl_loss': its weight is the function's [weight] and its value
    the whole loss, the squared reconstruction error of both observations
    plus [beta] times the KL divergence of both latent distributions.  With
    the perceptual loss enabled, the term named 'kl_loss' is the KL
    divergence alone, with weight [beta], registered after the perceptual
    term. *)
Theorem vaeLoss_kl_loss_term (th_exp : Q -> Q)
    (decoded next_decoded obs next_obs mu next_mu logvar next_logvar : tensor Q)
    (weight beta : Q) (weight_perceptual : Q) (self : LossManager) :
  shape mu = shape logvar ->
  shape next_mu = shape next_logvar ->
  (forall encoded_real encoded_prediction next_encoded_real next_encoded_prediction,
      shape decoded = shape obs ->
      shape next_decoded = shape next_obs ->
      exists vae_loss returned self',
        vaeLoss th_exp decoded next_decoded obs next_obs mu next_mu logvar next_logvar
          weight beta false
          encoded_real encoded_prediction next_encoded_real next_encoded_prediction
          weight_perceptual self
        = (Ok (Tensor (Num returned)), self') /\
        names self' = names self ++ ["kl_loss"] /\
        weights self' = weights self ++ [weight] /\
        losses self' = losses self ++ [Tensor (Num vae_loss)] /\
        loss_history self' = loss_history self /\
        vae_loss ==
          squared_error (elems decoded) (elems obs)
          + squared_error (elems next_decoded) (elems next_obs)
          + beta * (gaussian_kl th_exp (elems mu) (elems logvar)
                    + gaussian_kl th_exp (elems next_mu) (elems next_logvar)) /\
        returned == weight * vae_loss) /\
  (forall encoded_real encoded_prediction next_encoded_real next_encoded_prediction,
      shape encoded_real = shape encoded_prediction ->
      shape next_encoded_real = shape next_encoded_prediction ->
      exists perceptual kl returned self',
        vaeLoss th_exp decoded next_decoded obs next_obs mu next_mu logvar next_logvar
          weight beta true
          (Some encoded_real) (Some encoded_prediction)
          (Some next_encoded_real) (Some next_encoded_prediction)
          weight_perceptual self
        = (Ok (Tensor (Num returned)), self') /\
        names self' = names self ++ ["denoising perceptual similarity"; "kl_loss"] /\
        weights self' = weights self ++ [weight_perceptual; beta] /\
        losses self' = losses self ++ [Tensor (Num perceptual); Tensor (Num kl)] /\
        loss_history self' = loss_history self /\
        kl == gaussian_kl th_exp (elems mu) (elems logvar)
              + gaussian_kl th_exp (elems next_mu) (elems next_logvar) /\
        perceptual ==
          squared_error (elems encoded_real) (elems encoded_prediction)
          + squared_error (elems next_encoded_real) (elems next_encoded_prediction) /\
        returned == weight * (weight_perceptual * perceptual + beta * kl)).
Proof.
  intros Hmu Hnext.
  destruct (kl_term_gaussian_kl th_exp mu logvar Hmu) as (k & Ek & Hk).
  destruct (kl_term_gaussian_kl th_exp next_mu next_logvar Hnext) as (k' & Ek' & Hk').
  split.
  - intros er ep ner nep Hd Hd'.
    destruct (mse_loss_squared_error decoded obs Hd) as (g & Eg & Hg).
    destruct (mse_loss_squared_error next_decoded next_obs Hd') as (g' & Eg' & Hg').
    unfold vaeLoss, lm_bind, lift, call_addToLosses, lm_ret.
    rewrite Ek, Ek', Eg, Eg'. simpl.
    eexists _, _, _. split; [reflexivity|]. simpl.
    rewrite <- ?app_assoc. simpl.
    repeat (split; [reflexivity|]).
    split; [rewrite Hg, Hg', Hk, Hk'; reflexivity | reflexivity].
  - intros er ep ner nep He He'.
    destruct (mse_loss_squared_error er ep He) as (d & Ed & Hd).
    destruct (mse_loss_squared_error ner nep He') as (d' & Ed' & Hd').
    unfold vaeLoss, lm_bind, lift, call_addToLosses, lm_ret, mse_loss_opt.
    rewrite Ek, Ek', Ed, Ed'. simpl.
    eexists _, _, _, _. split; [reflexivity|]. simpl.
    rewrite <- ?app_assoc. simpl.
    repeat (split; [reflexivity|]).
    split; [rewrite Hk, Hk'; reflexivity|].
    split; [rewrite Hd, Hd'; reflexivity | reflexivity].
Qed.

Lemma vaeLoss_kl_loss_term_witness :
  (exists vae_loss returned self',
      vaeLoss constant_one demo_decoded demo_decoded demo_obs demo_obs
        demo_mu demo_mu demo_logvar demo_logvar 2 3 false None None None None 0
        demo_manager
      = (Ok (Tensor (Num returned)), self') /\
      names self' = names demo_manager ++ ["kl_loss"] /\
      weights self' = weights demo_manager ++ [2] /\
      losses self' = losses demo_manager ++ [Tensor (Num vae_loss)] /\
      loss_history self' = loss_history demo_manager /\
      vae_loss ==
        squared_error (elems demo_decoded) (elems demo_obs)
        + squared_error (elems demo_decoded) (elems demo_obs)
        + 3 * (gaussian_kl constant_one (elems demo_mu) (elems demo_logvar)
               + gaussian_kl constant_one (elems demo_mu) (elems demo_logvar)) /\
      returned == 2 * vae_loss) /\
  (exists perceptual kl returned self',
      vaeLoss constant_one demo_decoded demo_decoded demo_obs demo_obs
        demo_mu demo_mu demo_logvar demo_logvar 2 3 true
        (Some demo_obs) (Some demo_decoded) (Some demo_obs) (Some demo_decoded)
        (1 # 2) demo_manager
      = (Ok (Tensor (Num returned)), self') /\
      names self' = names demo_manager ++ ["denoising perceptual similarity"; "kl_loss"] /\
      weights self' = weights demo_manager ++ [1 # 2; 3] /\
      losses self' = losses demo_manager ++ [Tensor (Num perceptual); Tensor (Num kl)] /\
      loss_history self' = loss_history demo_manager /\
      kl == gaussian_kl constant_one (elems demo_mu) (elems demo_logvar)
            + gaussian_kl constant_one (elems demo_mu) (elems demo_logvar) /\
      perceptual ==
        squared_error (elems demo_obs) (elems demo_decoded)
        + squared_error (elems demo_obs) (elems demo_decoded) /\
      returned == 2 * ((1 # 2) * perceptual + 3 * kl)).
Proof.
  destruct (vaeLoss_kl_loss_term constant_one demo_decoded demo_decoded demo_obs demo_obs
              demo_mu demo_mu demo_logvar demo_logvar 2 3 0 demo_manager
              eq_refl eq_refl) as [Hplain _].
  destruct (vaeLoss_kl_loss_term constant_one demo_decoded demo_decoded demo_obs demo_obs
              demo_mu demo_mu demo_logvar demo_logvar 2 3 (1 # 2) demo_manager
              eq_refl eq_refl) as [_ Hperceptual].
  split.
  - apply (Hplain None None None None); reflexivity.
  - apply (Hperceptual demo_obs demo_decoded demo_obs demo_decoded); reflexivity.
Defined.

Lemma vaeLoss_perceptual_two (th_exp : Q -> Q)
    decoded next_decoded obs next_obs mu next_mu logvar next_logvar weight beta
    er ep ner nep weight_perceptual self :
  match vaeLoss th_exp decoded next_decoded obs next_obs mu next_mu logvar next_logvar
          weight beta true er ep ner nep weight_perceptual self with
  | (Ok returned, self') =>
      exists denoiser kl,
        self' = addToLosses "kl_loss" beta kl
                  (addToLosses "denoising perceptual similarity" weight_perceptual
                     denoiser self) /\
        returned = vmul weight (vadd (vmul weight_perceptual denoiser) (vmul beta kl))
  | (Raise _, self') => self' = self
  end.
Proof.
  rewrite vaeLoss_perceptual.
  destruct (kl_divergence_of _ _ _ _ _) as [kl|e]; [|reflexivity].
  destruct (denoiser_encoding_loss_of _ _ _ _) as [d|e]; [|reflexivity].
  eauto.
Qed.

Section RegistrationOfEveryFunction.

Variables th_exp th_log th_sqrt : Q -> Q.
Variable np_pi : Q.
Variable CrossEntropyLoss : tensor Q -> tensor Z -> result scalar.
Variable BCELoss : tensor Q -> tensor Q -> result scalar.
Variable rng : Type.
Variable np_random_rand : rng -> Q * rng.
Variable np_random_choice : list Z -> rng -> Z * rng.
Variable np_random_permutation : nat -> rng -> list Z * rng.

(** C6, as the code has it.  Ten of the loss functions make one call of
    [addToLosses], with their [weight], and return [weight] times the value
    registered: the forward, inverse, L1, reward-model, auto-encoder,
    mutual-information, reward-prior, episode-prior and triplet losses, and
    [vaeLoss] with the perceptual loss disabled.  [roboticPriorsLoss] makes
    four calls, each of weight 1, and returns [weight] times the sum of the
    four values; [vaeLoss] with the perceptual loss enabled makes two
    calls and returns [weight] times a value it has not registered;
    [reconstructionLoss] has no manager and no weight and returns the mean
    squared error itself.  A call that raises has registered nothing. *)
Theorem loss_functions_registration :
  (forall pred next weight,
      registers_once "forward_loss" weight (forwardModelLoss pred next weight)) /\
  (forall pred st weight,
      registers_once "inverse_loss" weight
        (inverseModelLoss CrossEntropyLoss pred st weight)) /\
  (forall params weight,
      registers_once "l1_loss" weight (l1Loss params weight)) /\
  (forall pred st weight,
      registers_once "reward_loss" weight
        (rewardModelLoss CrossEntropyLoss pred st weight)) /\
  (forall obs decoded_obs next_obs decoded_next_obs weight,
      registers_once "reconstruction_loss" weight
        (autoEncoderLoss obs decoded_obs next_obs decoded_next_obs weight)) /\
  (forall decoded next_decoded obs next_obs mu next_mu logvar next_logvar
          weight beta er ep ner nep weight_perceptual,
      registers_once "kl_loss" weight
        (vaeLoss th_exp decoded next_decoded obs next_obs mu next_mu logvar next_logvar
           weight beta false er ep ner nep weight_perceptual)) /\
  (forall states rewards_st weight,
      registers_once "reward_prior" weight
        (mutualInformationLoss th_exp th_log th_sqrt np_pi states rewards_st weight)) /\
  (forall states rewards_st weight,
      registers_once "reward_prior" weight
        (rewardPriorLoss th_exp states rewards_st weight)) /\
  (forall idx episodes states discriminator balanced weight (g : rng),
      registers_once "episode_prior" weight
        (episodePriorLoss BCELoss rng np_random_rand np_random_choice
           np_random_permutation idx episodes states discriminator balanced weight g).1) /\
  (forall states p_states n_states weight alpha,
      registers_once "triplet_loss" weight
        (tripletLoss states p_states n_states weight alpha)) /\
  (forall states next_states minibatch_idx dissimilar_pairs same_actions_pairs weight,
      registers_four_priors weight
        (roboticPriorsLoss th_exp th_sqrt states next_states minibatch_idx
           dissimilar_pairs same_actions_pairs weight)) /\
  (forall decoded next_decoded obs next_obs mu next_mu logvar next_logvar
          weight beta er ep ner nep weight_perceptual self,
      match vaeLoss th_exp decoded next_decoded obs next_obs mu next_mu logvar
              next_logvar weight beta true er ep ner nep weight_perceptual self with
      | (Ok returned, self') =>
          exists denoiser kl,
            self' = addToLosses "kl_loss" beta kl
                      (addToLosses "denoising perceptual similarity" weight_perceptual
                         denoiser self) /\
            returned = vmul weight (vadd (vmul weight_perceptual denoiser) (vmul beta kl))
      | (Raise _, self') => self' = self
      end) /\
  (forall input_image target_image,
      reconstructionLoss input_image target_image = mse_loss input_image target_image true).
Proof.
  repeat split; intros.
  - apply forwardModelLoss_once.
  - apply inverseModelLoss_once.
  - apply l1Loss_once.
  - apply rewardModelLoss_once.
  - apply autoEncoderLoss_once.
  - apply vaeLoss_once.
  - apply mutualInformationLoss_once.
  - apply rewardPriorLoss_once.
  - apply episodePriorLoss_once.
  - apply tripletLoss_once.
  - apply roboticPriorsLoss_four.
  - apply vaeLoss_perceptual_two.
Qed.

End RegistrationOfEveryFunction.

(** C6 as the spec states it fails: on a batch of two states,
    [roboticPriorsLoss] leaves four terms in the manager, not one. *)
Lemma roboticPriorsLoss_not_once :
  ~ (forall th_exp th_sqrt : Q -> Q,
       exists name,
         registers_once name 1
           (roboticPriorsLoss th_exp th_sqrt demo_states demo_next_states 0
              demo_pairs demo_pairs 1)).
Proof.
  intros H. destruct (H (fun x => x) (fun x => x)) as [name Hname].
  specialize (Hname demo_manager).
  vm_compute in Hname. destruct Hname as (raw_loss & Hself & _).
  discriminate Hself.
Qed.

Example roboticPriorsLoss_demo_names (th_exp th_sqrt : Q -> Q) :
  names (roboticPriorsLoss th_exp th_sqrt demo_states demo_next_states 0
           demo_pairs demo_pairs 1 demo_manager).2
  = ["temp_coherence_loss"; "causality_loss"; "proportionality_loss";
     "repeatability_loss"].
Proof. reflexivity. Qed.

(** *** The epsilon of the mutual-information loss *)

Lemma eps_pos : 0 < eps.
Proof. reflexivity. Qed.



Lemma guarded_ge (x : Q) : 0 <= x -> eps <= x + eps.
Proof.
  intros Hx. apply Qle_trans with (0 + eps).
  - rewrite Qplus_0_l. apply Qle_refl.
  - apply Qplus_le_l. exact Hx.
Qed.

Lemma checked_div_pos (a b : Q) : 0 < b -> checked_div a b = Ok (a / b).
Proof.
  intros Hb. unfold checked_div.
  destruct (Qeq_bool b 0) eqn:E; [|reflexivity].
  apply Qeq_bool_iff in E. rewrite E in Hb. exfalso. exact (Qlt_irrefl 0 Hb).
Qed.




Lemma comprehension_ok {A B} (f : A -> result B) (xs : list A) :
  (forall x, x ∈ xs -> exists y, f x = Ok y) ->
  exists ys, comprehension f xs = Ok ys /\ length ys = length xs.
Proof.
  induction xs as [|x xs IH]; intros Hf; simpl; [exists []; auto|].
  destruct (Hf x) as [y Hy]; [apply elem_of_cons; auto|]. rewrite Hy. simpl.
  destruct IH as (ys & Hys & Hlen).
  { intros x' Hx'. apply Hf. apply elem_of_cons. auto. }
  rewrite Hys. simpl. exists (y :: ys). simpl. auto.
Qed.






Lemma getitem_lt {A} (xs : list A) i :
  (i < length xs)%nat -> exists x, getitem xs i = Ok x /\ x ∈ xs.
Proof.
  intros Hi. destruct (lookup_lt_is_Some_2 xs i Hi) as [x Hx].
  exists x. unfold getitem. rewrite Hx. split; [reflexivity|].
  eapply list_elem_of_lookup_2. exact Hx.
Qed.

Lemma transpose_length (d : nat) (a : mat) :
  a <> [] -> rectangular d a -> length (transpose a) = d.
Proof.
  intros Hne Hr. induction Hr as [|row a Hrow Hr IH]; [congruence|].
  destruct a as [|row' a].
  - simpl. rewrite length_map. exact Hrow.
  - change (transpose (row :: row' :: a))
      with (zip_with cons row (transpose (row' :: a))).
    rewrite length_zip_with, IH by discriminate. lia.
Qed.










Lemma eps_le_pos (d : Q) : eps <= d -> 0 < d.
Proof. intros H. eapply Qlt_le_trans; [exact eps_pos | exact H]. Qed.









Section EpsilonGuards.

Variables th_exp th_log th_sqrt : Q -> Q.
Variable np_pi : Q.

(** Rounded to floats, an exponential of a large negative number and the
    root of the variance of a constant column are zero, not positive. *)
Hypothesis th_exp_nonneg : forall x, 0 <= th_exp x.
Hypothesis th_sqrt_nonneg : forall x, 0 <= th_sqrt x.


Lemma th_std_guarded (column : vec) :
  nan_or_at_least eps (sadd (th_std th_sqrt column) (Num eps)).
Proof.
  destruct column as [|x [|y r]]; simpl; try exact I.
  apply guarded_ge, th_sqrt_nonneg.
Qed.

Lemma std_dim0_guarded (a : mat) :
  Forall (nan_or_at_least eps) (guarded (std_dim0 th_sqrt a)).
Proof.
  unfold guarded, std_dim0. apply Forall_fmap, Forall_fmap, Forall_forall.
  intros column _. simpl. apply th_std_guarded.
Qed.











Lemma div_row_ok (a : vec) (b : list scalar) :
  length a = length b -> Forall (nan_or_at_least eps) b ->
  exists z, div_row a b = Ok z.
Proof.
  intros Hlen Hb. unfold div_row. rewrite decide_True by exact Hlen.
  destruct (comprehension_ok (fun ab : Q * scalar => div_entry ab.1 ab.2) (zip a b))
    as (z & Hz & _); [|eauto].
  intros [x [d|]] Hin; simpl; [|eauto].
  rewrite checked_div_pos; [simpl; eauto|].
  apply elem_of_zip_r in Hin. simpl in Hin.
  rewrite Forall_forall in Hb. apply eps_le_pos. exact (Hb (Num d) Hin).
Qed.

Lemma density_ok row mu sigma :
  length row = length mu -> length row = length sigma ->
  Forall (nan_or_at_least eps) (guarded sigma) ->
  exists p, density th_exp th_sqrt np_pi row mu sigma = Ok p.
Proof.
  intros Hmu Hsigma Hs. unfold density.
  rewrite (pointwise_ok _ _ _ Hmu). simpl.
  destruct (div_row_ok (zip_with Qminus row mu) (guarded sigma)) as [z Hz].
  - unfold guarded. rewrite length_zip_with, length_map. lia.
  - exact Hs.
  - rewrite Hz. simpl. eauto.
Qed.

Lemma densities_ok (d : nat) (a : mat) :
  a <> [] -> rectangular d a ->
  exists ps,
    comprehension
      (fun row => density th_exp th_sqrt np_pi row (mean_dim0 a) (std_dim0 th_sqrt a)) a
    = Ok ps /\ length ps = length a.
Proof.
  intros Hne Hr. apply comprehension_ok. intros row Hrow.
  unfold rectangular in Hr. rewrite Forall_forall in Hr.
  apply density_ok.
  - unfold mean_dim0. rewrite length_map, (transpose_length d a Hne); [auto|].
    apply Forall_forall. exact Hr.
  - unfold std_dim0. rewrite length_map, (transpose_length d a Hne); [auto|].
    apply Forall_forall. exact Hr.
  - apply std_dim0_guarded.
Qed.













End EpsilonGuards.



Example mutualInformationLoss_equal_rows :
  (mutualInformationLoss constant_one constant_zero Qabs 3
     (replicate 2 [1; 2]) (replicate 2 [3]) 1 demo_manager).1 = Ok (Tensor (Num 1)).
Proof. reflexivity. Qed.

Example mutualInformationLoss_one_row_demo :
  (mutualInformationLoss constant_one constant_zero Qabs 3 [[1; 2]] [[3]] 1
     demo_manager).1 = Ok (Tensor NaN).
Proof. reflexivity. Qed.

Example rewardPriorLoss_equal_rows :
  (rewardPriorLoss constant_one (replicate 2 [1; 2]) (replicate 2 [3]) 1
     demo_manager).1 = Ok (Tensor (Num 1)).
Proof. reflexivity. Qed.

(** On [demo_mu], [demo_logvar] the KL divergence is 1 and the
    reconstruction error 2: the term named 'kl_loss' holds 3 without the
    perceptual loss and 1 with it. *)
Example vaeLoss_demo_plain :
  losses (vaeLoss constant_one demo_decoded demo_decoded demo_obs demo_obs
            demo_mu demo_mu demo_logvar demo_logvar 1 1 false
            None None None None 0 demo_manager).2
  = [Tensor (Num (12 # 4))].
Proof. reflexivity. Qed.

Example vaeLoss_demo_perceptual :
  losses (vaeLoss constant_one demo_decoded demo_decoded demo_obs demo_obs
            demo_mu demo_mu demo_logvar demo_logvar 1 1 true
            (Some demo_obs) (Some demo_decoded) (Some demo_obs) (Some demo_decoded)
            (1 # 2) demo_manager).2
  = [Tensor (Num 2); Tensor (Num (4 # 4))].
Proof. reflexivity. Qed.

(** ** Further properties of the accumulator *)

Lemma extends_refl l : extends l l.
Proof.
  destruct l as [|x l] using rev_ind.
  - left. simpl. auto.
  - right. eauto.
Qed.

Lemma extends_step l x :
  extends l (if (0 <? length l)%nat then iadd_last l x else l ++ [x]).
Proof.
  destruct l as [|y l] using rev_ind.
  - left. simpl. auto.
  - right. rewrite length_app. simpl.
    replace (0 <? length l + 1)%nat with true by (symmetry; apply Nat.ltb_lt; lia).
    rewrite iadd_last_snoc. eauto.
Qed.

Lemma extends_trans_step l l' x :
  extends l l' ->
  extends l (if (0 <? length l')%nat then iadd_last l' x else l' ++ [x]).
Proof.
  intros [[-> Hlen]|(es & r & r' & -> & ->)].
  - left. split; [reflexivity|].
    destruct l' as [|a [|b l']]; simpl in *; try lia.
  - right. rewrite length_app. simpl.
    replace (0 <? length es + 1)%nat with true by (symmetry; apply Nat.ltb_lt; lia).
    rewrite iadd_last_snoc. eauto.
Qed.

Lemma commit_term_extends (h0 h : gmap string (list scalar)) t :
  (forall name, option_Forall2 extends (h0 !! name) (h !! name)) ->
  forall h', commit_term h t = Ok h' ->
  forall name, option_Forall2 extends (h0 !! name) (h' !! name).
Proof.
  intros H0 h' Hc name. destruct t as [[n w] v]. unfold commit_term in Hc.
  destruct (Qgtb w 0); [|injection Hc as <-; apply H0].
  destruct (h !! n) as [l|] eqn:Hl; [|discriminate].
  destruct v as [x|x]; [|destruct (0 <? length l)%nat; discriminate].
  assert (Hh' : h' = <[n := if (0 <? length l)%nat then iadd_last l (smul w x)
                            else l ++ [smul w x]]> h).
  { destruct (0 <? length l)%nat; simpl in Hc; injection Hc as <-; reflexivity. }
  rewrite Hh'. destruct (decide (n = name)) as [<-|Hne].
  - rewrite lookup_insert_eq. specialize (H0 n). rewrite Hl in H0.
    inversion H0 as [l0 l1 Hext|]; subst. constructor.
    apply extends_trans_step. exact Hext.
  - rewrite lookup_insert_ne by exact Hne. apply H0.
Qed.

Lemma commit_loop_extends ts (h0 h : gmap string (list scalar)) :
  (forall name, option_Forall2 extends (h0 !! name) (h !! name)) ->
  forall name, option_Forall2 extends (h0 !! name) ((commit_loop ts h).2 !! name).
Proof.
  revert h. induction ts as [|t ts IH]; intros h H0; simpl; [exact H0|].
  destruct (commit_term h t) as [h1|e] eqn:Hc; [|exact H0].
  apply IH. eapply commit_term_extends; eassumption.
Qed.

(** X1. Whether it returns or raises, a commit keeps the names of the
    history as they are and, for each name, either gives an empty list its
    first entry or changes the last entry of a non-empty list: no list
    shrinks, none grows beyond its first entry, no earlier entry changes. *)
Theorem updateLossHistory_extends (self : LossManager) h :
  loss_history self = Some h ->
  exists h',
    loss_history (updateLossHistory self).2 = Some h' /\
    forall name, option_Forall2 extends (h !! name) (h' !! name).
Proof.
  intros Hh. unfold updateLossHistory. rewrite Hh.
  pose proof (commit_loop_extends (zip3 (names self) (weights self) (losses self)) h h) as H.
  destruct (commit_loop _ h) as [r h'] eqn:E. simpl in *.
  exists h'. split; [reflexivity|]. apply H.
  intros name. destruct (h !! name); constructor. apply extends_refl.
Qed.

Lemma updateLossHistory_extends_witness :
  exists h',
    loss_history (updateLossHistory demo_recorded).2 = Some h' /\
    forall name, option_Forall2 extends (demo_history_xy !! name) (h' !! name).
Proof. apply (updateLossHistory_extends demo_recorded demo_history_xy). reflexivity. Defined.

Lemma merged_step l c cs :
  merged (if (0 <? length l)%nat then iadd_last l c else l ++ [c]) cs = merged l (c :: cs).
Proof.
  destruct l as [|r es _] using rev_ind.
  - simpl. destruct cs as [|c' cs]; reflexivity.
  - rewrite length_app. simpl.
    replace (0 <? length es + 1)%nat with true by (symmetry; apply Nat.ltb_lt; lia).
    rewrite iadd_last_snoc. unfold merged.
    destruct cs as [|c' cs].
    + destruct (es ++ [r]) as [|a l] eqn:E; [destruct es; discriminate|].
      rewrite <- E, removelast_last, last_last. reflexivity.
    + destruct (es ++ [sadd r c]) as [|a l] eqn:E; [destruct es; discriminate|].
      destruct (es ++ [r]) as [|a' l0] eqn:E'; [destruct es; discriminate|].
      rewrite <- E, <- E', !removelast_last, !last_last. reflexivity.
Qed.

Lemma merged_snoc entries recent c cs :
  merged (entries ++ [sadd recent c]) cs = merged (entries ++ [recent]) (c :: cs).
Proof.
  rewrite <- (merged_step (entries ++ [recent]) c cs).
  rewrite length_app. simpl.
  replace (0 <? length entries + 1)%nat with true by (symmetry; apply Nat.ltb_lt; lia).
  rewrite iadd_last_snoc. reflexivity.
Qed.

Lemma merged_first c cs : merged [c] cs = merged [] (c :: cs).
Proof. exact (merged_step [] c cs). Qed.

Lemma contributions_skip name n w v ts :
  ~ 0 < w \/ n <> name ->
  contributions name ((n, w, v) :: ts) = contributions name ts.
Proof.
  intros H. simpl. destruct (Qlt_le_dec 0 w) as [Hlt|Hle]; [|reflexivity].
  destruct (decide (n = name)) as [E|E]; [|reflexivity].
  destruct H as [H|H]; contradiction.
Qed.

Lemma contributions_take name w v ts :
  0 < w ->
  contributions name ((name, w, v) :: ts) = smul w (content v) :: contributions name ts.
Proof.
  intros Hw. simpl. destruct (Qlt_le_dec 0 w) as [Hlt|Hle].
  - rewrite decide_True by reflexivity. reflexivity.
  - exfalso. exact (Qlt_not_le _ _ Hw Hle).
Qed.

Lemma commits_merged (h h' : gmap string (list scalar)) ts :
  commits h ts h' ->
  forall name, h' !! name = (fun l => merged l (contributions name ts)) <$> (h !! name).
Proof.
  induction 1 as [h|h h' n w v ts Hw _ IH
                  |h h' n w x ts entries recent Hw Hl _ IH
                  |h h' n w x ts Hw Hl _ IH]; intros name.
  - destruct (h !! name); reflexivity.
  - rewrite contributions_skip by (left; exact Hw). apply IH.
  - rewrite IH. destruct (decide (n = name)) as [<-|Hne].
    + rewrite lookup_insert_eq, Hl, (contributions_take n w (Tensor x) ts Hw). simpl.
      rewrite merged_snoc. reflexivity.
    + rewrite lookup_insert_ne by exact Hne.
      rewrite (contributions_skip name n w (Tensor x) ts) by (right; exact Hne).
      reflexivity.
  - rewrite IH. destruct (decide (n = name)) as [<-|Hne].
    + rewrite lookup_insert_eq, Hl, (contributions_take n w (Tensor x) ts Hw). simpl.
      rewrite merged_first. reflexivity.
    + rewrite lookup_insert_ne by exact Hne.
      rewrite (contributions_skip name n w (Tensor x) ts) by (right; exact Hne).
      reflexivity.
Qed.

(** X2. A commit that finds a slot for every name it logs, the values it
    logs being tensors, returns and gives each name its old entries with
    the contributions [weight * value] of that name's terms of positive
    weight added, in the order of recording, to the last entry (which the
    first contribution creates when the list was empty); names without such
    a term keep their list, and the three lists of the manager are not
    touched. *)
Theorem updateLossHistory_merged (self : LossManager) h :
  loss_history self = Some h ->
  registered h (zip3 (names self) (weights self) (losses self)) ->
  tensors (zip3 (names self) (weights self) (losses self)) ->
  (updateLossHistory self).1 = Ok tt /\
  (forall name,
      history_entries (updateLossHistory self).2 name =
        (fun l => merged l (contributions name
                              (zip3 (names self) (weights self) (losses self))))
          <$> (h !! name)) /\
  names (updateLossHistory self).2 = names self /\
  weights (updateLossHistory self).2 = weights self /\
  losses (updateLossHistory self).2 = losses self.
Proof.
  intros Hh Hr Ht.
  destruct (commits_exists _ h Hr Ht) as [h' Hc].
  unfold updateLossHistory. rewrite Hh, (commits_commit_loop _ _ _ Hc).
  unfold history_entries. simpl.
  split; [reflexivity|]. split; [|auto].
  apply commits_merged. exact Hc.
Qed.

Lemma updateLossHistory_merged_witness :
  (updateLossHistory demo_recorded).1 = Ok tt /\
  history_entries (updateLossHistory demo_recorded).2 "x" = Some [Num (1 + 1 * 2)] /\
  history_entries (updateLossHistory demo_recorded).2 "y" = Some [Num ((1 # 2) * 4)] /\
  history_entries (updateLossHistory demo_recorded).2 "z" = None /\
  names (updateLossHistory demo_recorded).2 = ["x"; "y"] /\
  weights (updateLossHistory demo_recorded).2 = [1; 1 # 2] /\
  losses (updateLossHistory demo_recorded).2 = [Tensor (Num 2); Tensor (Num 4)].
Proof.
  destruct (updateLossHistory_merged demo_recorded demo_history_xy eq_refl)
    as (Hr & Hh & Hn & Hw & Hl).
  - intros name w v Hin _. simpl in Hin.
    apply elem_of_cons in Hin as [[= -> _ _]|Hin]; [vm_compute; eauto|].
    apply elem_of_cons in Hin as [[= -> _ _]|Hin]; [vm_compute; eauto|].
    apply elem_of_nil in Hin. destruct Hin.
  - intros name w v Hin _. simpl in Hin.
    apply elem_of_cons in Hin as [[= _ _ ->]|Hin]; [eauto|].
    apply elem_of_cons in Hin as [[= _ _ ->]|Hin]; [eauto|].
    apply elem_of_nil in Hin. destruct Hin.
  - split; [exact Hr|].
    split; [rewrite (Hh "x"); reflexivity|].
    split; [rewrite (Hh "y"); reflexivity|].
    split; [rewrite (Hh "z"); reflexivity|].
    exact (conj Hn (conj Hw Hl)).
Defined.

Lemma commit_loop_filter ts (h : gmap string (list scalar)) :
  commit_loop ts h = commit_loop (filter (fun t => Is_true (positive t)) ts) h.
Proof.
  revert h. induction ts as [|[[n w] v] ts IH]; intros h; [reflexivity|].
  destruct (Qgtb w 0) eqn:Hw.
  - rewrite filter_cons_True by (unfold positive, term_weight; simpl; rewrite Hw; exact I).
    cbn [commit_loop]. destruct (commit_term h (n, w, v)); [apply IH | reflexivity].
  - rewrite filter_cons_False
      by (unfold positive, term_weight; simpl; rewrite Hw; intros []).
    simpl. rewrite Hw. apply IH.
Qed.

Lemma zip3_weights {A C} (ns : list A) (ws : list Q) (ls : list C) t :
  t ∈ zip3 ns ws ls -> t.1.2 ∈ ws.
Proof.
  revert ws ls. induction ns as [|n ns IH]; intros [|w ws] [|l ls] Hin; simpl in Hin;
    try (apply elem_of_nil in Hin; destruct Hin).
  apply elem_of_cons in Hin as [->|Hin]; simpl.
  - apply elem_of_cons. auto.
  - apply elem_of_cons. right. eapply IH. exact Hin.
Qed.

Lemma filter_none {A} (P : A -> Prop) `{!forall x, Decision (P x)} (l : list A) :
  Forall (fun x => ~ P x) l -> filter P l = [].
Proof.
  induction 1 as [|x l Hx _ IH]; [reflexivity|].
  rewrite filter_cons_False by exact Hx. exact IH.
Qed.

(** X3. Terms whose weight is zero or negative are never logged: when no
    recorded weight is positive, a commit returns and changes nothing,
    whether or not the history has slots for the recorded names. *)
Theorem updateLossHistory_no_positive_weight (self : LossManager) :
  (forall w, w ∈ weights self -> w <= 0) ->
  updateLossHistory self = (Ok tt, self).
Proof.
  intros Hw. unfold updateLossHistory.
  destruct self as [rp c [h|] ns ws ls]; simpl in *; [|reflexivity].
  rewrite commit_loop_filter.
  assert (E : filter (fun t : term => Is_true (positive t)) (zip3 ns ws ls) = []).
  { apply filter_none. apply Forall_forall. intros t Ht Hp.
    apply zip3_weights in Ht. apply Hw in Ht.
    apply Is_true_true in Hp. apply Qgtb_lt in Hp.
    exact (Qlt_not_le _ _ Hp Ht). }
  rewrite E. reflexivity.
Qed.

Lemma updateLossHistory_no_positive_weight_witness :
  updateLossHistory demo_unweighted = (Ok tt, demo_unweighted).
Proof.
  apply updateLossHistory_no_positive_weight.
  intros w Hw. simpl in Hw.
  apply elem_of_cons in Hw as [->|Hw]; [discriminate|].
  apply elem_of_cons in Hw as [->|Hw]; [discriminate|].
  apply elem_of_nil in Hw. destruct Hw.
Defined.

Lemma sadd_NaN_r a : sadd a NaN = NaN.
Proof. destruct a; reflexivity. Qed.

Lemma content_vadd a b : content (vadd a b) = sadd (content a) (content b).
Proof. destruct a, b; reflexivity. Qed.

Lemma content_vmul w v : content (vmul w v) = smul w (content v).
Proof. destruct v; reflexivity. Qed.

Lemma weighted_sum_from_NaN acc ts :
  content acc = NaN -> content (weighted_sum_from acc ts) = NaN.
Proof.
  revert acc. induction ts as [|[[n w] v] ts IH]; intros acc Hacc; simpl; [exact Hacc|].
  apply IH. rewrite content_vadd, Hacc. reflexivity.
Qed.

Lemma weighted_sum_from_poisoned acc ts name w v :
  (name, w, v) ∈ ts -> content v = NaN -> content (weighted_sum_from acc ts) = NaN.
Proof.
  revert acc. induction ts as [|[[n' w'] v'] ts IH]; intros acc Hin Hnan.
  - apply elem_of_nil in Hin. destruct Hin.
  - apply elem_of_cons in Hin as [[= <- <- <-]|Hin]; simpl.
    + apply weighted_sum_from_NaN.
      rewrite content_vadd, content_vmul, Hnan.
      destruct w; simpl. apply sadd_NaN_r.
    + apply IH; assumption.
Qed.

Lemma weighted_sum_from_tensor acc ts :
  (exists x, acc = Tensor x) -> exists x, weighted_sum_from acc ts = Tensor x.
Proof.
  revert acc. induction ts as [|[[n w] v] ts IH]; intros acc [x ->]; simpl; [eauto|].
  apply IH. destruct v; simpl; eauto.
Qed.

Lemma weighted_sum_from_has_tensor acc ts name w x :
  (name, w, Tensor x) ∈ ts -> exists y, weighted_sum_from acc ts = Tensor y.
Proof.
  revert acc. induction ts as [|[[n' w'] v'] ts IH]; intros acc Hin.
  - apply elem_of_nil in Hin. destruct Hin.
  - apply elem_of_cons in Hin as [[= <- <- <-]|Hin]; simpl.
    + apply weighted_sum_from_tensor. destruct acc; simpl; eauto.
    + apply IH. exact Hin.
Qed.

(** X4. One recorded value that is [nan] makes the total [nan], whatever
    its weight (zero included) and whatever else is recorded; the total is
    the tensor [nan] when that value is a tensor. *)
Theorem computeTotalLoss_nan (self : LossManager) (ts : list term) name w v :
  (name, w, v) ∈ ts ->
  content v = NaN ->
  (exists total,
      computeTotalLoss (add_all ts (resetLosses self)) = Ok total /\
      content total = NaN) /\
  ((exists x, v = Tensor x) ->
   computeTotalLoss (add_all ts (resetLosses self)) = Ok (Tensor NaN)).
Proof.
  intros Hin Hnan.
  assert (E : computeTotalLoss (add_all ts (resetLosses self)) = Ok (weighted_sum ts)).
  { apply computeTotalLoss_holds.
    apply (holds_add_all ts (resetLosses self) []). apply holds_reset. }
  rewrite E.
  pose proof (weighted_sum_from_poisoned (PyNumber (Num 0)) ts name w v Hin Hnan) as Hc.
  split.
  - exists (weighted_sum ts). split; [reflexivity | exact Hc].
  - intros [x ->].
    destruct (weighted_sum_from_has_tensor (PyNumber (Num 0)) ts name w x Hin) as [y Hy].
    unfold weighted_sum in *. rewrite Hy in Hc |- *. simpl in Hc. rewrite Hc. reflexivity.
Qed.

Lemma computeTotalLoss_nan_witness :
  computeTotalLoss
    (add_all [("x", 1, Tensor (Num 2)); ("empty", 0, Tensor NaN); ("y", 1, Tensor (Num 3))]
       (resetLosses demo_manager))
  = Ok (Tensor NaN).
Proof.
  apply (computeTotalLoss_nan demo_manager _ "empty" 0 (Tensor NaN)).
  - apply elem_of_cons. right. apply elem_of_cons. left. reflexivity.
  - reflexivity.
  - eauto.
Defined.

Lemma weighted_sum_from_app acc ts ts' :
  weighted_sum_from acc (ts ++ ts') = weighted_sum_from (weighted_sum_from acc ts) ts'.
Proof.
  revert acc. induction ts as [|[[n w] v] ts IH]; intros acc; simpl; [reflexivity | apply IH].
Qed.

(** X5. A loss function that registers one term raises the total by
    exactly the value it returns: on a manager in lock-step the total after
    the call is the total before plus the returned value, so the returned
    values of such calls add up to the total.  A call that raises leaves the
    total as it was. *)
Theorem total_grows_by_returned_value (name : string) (weight : Q) (run : M value)
    (self : LossManager) (ts : list term) :
  registers_once name weight run ->
  holds self ts ->
  exists total,
    computeTotalLoss self = Ok total /\
    match run self with
    | (Ok returned, self') => computeTotalLoss self' = Ok (vadd total returned)
    | (Raise _, self') => computeTotalLoss self' = Ok total
    end.
Proof.
  intros Hrun Hholds. exists (weighted_sum ts).
  split; [apply computeTotalLoss_holds; exact Hholds|].
  specialize (Hrun self). destruct (run self) as [[returned|e] self'].
  - destruct Hrun as (raw & -> & ->).
    rewrite (computeTotalLoss_holds _ (ts ++ [(name, weight, raw)])).
    + unfold weighted_sum. rewrite weighted_sum_from_app. reflexivity.
    + apply holds_add. exact Hholds.
  - subst self'. apply computeTotalLoss_holds. exact Hholds.
Qed.

Lemma total_grows_by_returned_value_witness :
  exists total,
    computeTotalLoss demo_recorded = Ok total /\
    match tripletLoss demo_states demo_p_states demo_close_n_states 3 0.2 demo_recorded with
    | (Ok returned, self') => computeTotalLoss self' = Ok (vadd total returned)
    | (Raise _, self') => computeTotalLoss self' = Ok total
    end.
Proof.
  apply (total_grows_by_returned_value "triplet_loss" 3 _ demo_recorded demo_terms).
  - apply tripletLoss_once.
  - repeat split.
Defined.

Lemma four_priors_total_scalars (t s1 s2 s3 s4 : scalar) :
  scalar_eq
    (sadd (sadd (sadd (sadd t (smul 1 s1)) (smul 1 s2)) (smul 1 s3)) (smul 1 s4))
    (sadd t (sadd (sadd (sadd (sadd (Num 0) s1) s2) s3) s4)).
Proof.
  destruct t, s1, s2, s3, s4; simpl; try exact I. ring.
Qed.

Lemma four_priors_total (t s1 s2 s3 s4 : value) :
  value_eq
    (vadd (vadd (vadd (vadd t (vmul 1 s1)) (vmul 1 s2)) (vmul 1 s3)) (vmul 1 s4))
    (vadd t (vadd (vadd (vadd (vadd (PyNumber (Num 0)) s1) s2) s3) s4)).
Proof.
  destruct t as [t|t], s1 as [s1|s1], s2 as [s2|s2], s3 as [s3|s3], s4 as [s4|s4];
    cbn [vadd vmul content value_eq]; apply four_priors_total_scalars.
Qed.

(** X6. [roboticPriorsLoss] raises the total by the plain sum of its four
    priors, each being registered with weight 1, and returns [weight]
    times that sum: its argument [weight] scales what it returns but not
    what the total holds. *)
Theorem roboticPriorsLoss_total (th_exp th_sqrt : Q -> Q) (states next_states : mat)
    (minibatch_idx : Z) (dissimilar_pairs same_actions_pairs : list (list (Z * Z)))
    (weight : Q) (self : LossManager) (ts : list term) :
  holds self ts ->
  exists total,
    computeTotalLoss self = Ok total /\
    match roboticPriorsLoss th_exp th_sqrt states next_states minibatch_idx
            dissimilar_pairs same_actions_pairs weight self with
    | (Ok returned, self') =>
        exists priors total',
          returned = vmul weight priors /\
          computeTotalLoss self' = Ok total' /\
          value_eq total' (vadd total priors)
    | (Raise _, self') => computeTotalLoss self' = Ok total
    end.
Proof.
  intros Hholds. exists (weighted_sum ts).
  split; [apply computeTotalLoss_holds; exact Hholds|].
  pose proof (roboticPriorsLoss_four th_exp th_sqrt states next_states minibatch_idx
                dissimilar_pairs same_actions_pairs weight self) as H.
  destruct (roboticPriorsLoss _ _ _ _ _ _ _ _ self) as [[returned|e] self'].
  - destruct H as (s1 & s2 & s3 & s4 & -> & ->).
    eexists. eexists. split; [reflexivity|].
    split.
    + apply (computeTotalLoss_holds _
               (ts ++ [("temp_coherence_loss", 1, s1); ("causality_loss", 1, s2);
                       ("proportionality_loss", 1, s3); ("repeatability_loss", 1, s4)])).
      replace (ts ++ [("temp_coherence_loss", 1, s1); ("causality_loss", 1, s2);
                      ("proportionality_loss", 1, s3); ("repeatability_loss", 1, s4)])
        with ((((ts ++ [("temp_coherence_loss", 1, s1)]) ++ [("causality_loss", 1, s2)])
                 ++ [("proportionality_loss", 1, s3)]) ++ [("repeatability_loss", 1, s4)])
        by (rewrite <- !app_assoc; reflexivity).
      repeat apply holds_add. exact Hholds.
    + unfold weighted_sum. rewrite weighted_sum_from_app. simpl.
      apply four_priors_total.
  - subst self'. apply computeTotalLoss_holds. exact Hholds.
Qed.

Lemma roboticPriorsLoss_total_witness :
  exists total,
    computeTotalLoss demo_recorded = Ok total /\
    match roboticPriorsLoss constant_one Qabs demo_states demo_next_states 0
            demo_pairs demo_pairs 3 demo_recorded with
    | (Ok returned, self') =>
        exists priors total',
          returned = vmul 3 priors /\
          computeTotalLoss self' = Ok total' /\
          value_eq total' (vadd total priors)
    | (Raise _, self') => computeTotalLoss self' = Ok total
    end.
Proof.
  apply (roboticPriorsLoss_total constant_one Qabs demo_states demo_next_states 0
           demo_pairs demo_pairs 3 demo_recorded demo_terms).
  repeat split.
Defined.

(** *** The constructor *)

Lemma n_params_of_scalar params p :
  p ∈ params -> size p = [] -> n_params_of params = Raise TypeError.
Proof.
  intros Hin Hsize. unfold n_params_of.
  assert (E : comprehension (fun q => reduce Nat.mul (size q)) params = Raise TypeError).
  { induction params as [|q params IH]; [apply elem_of_nil in Hin; destruct Hin|].
    simpl. destruct (size q) as [|d ds] eqn:Hq; [reflexivity|]. simpl.
    apply elem_of_cons in Hin as [->|Hin]; [congruence|].
    rewrite (IH Hin). reflexivity. }
  rewrite E. reflexivity.
Qed.

(** X7. A trainable parameter without dimensions whose name has no
    ".bias" makes the constructor raise [TypeError]: the product of its
    sizes is a [reduce] over an empty sequence. *)
Theorem init_zero_dimensional (model : list (string * Param)) l1_reg history name p :
  (name, p) ∈ model ->
  str_contains ".bias" name = false ->
  requires_grad p = true ->
  size p = [] ->
  __init__ model l1_reg history = Raise TypeError.
Proof.
  intros Hin Hname Hgrad Hsize. unfold __init__.
  rewrite (n_params_of_scalar _ p); [reflexivity | | exact Hsize].
  apply (list_elem_of_fmap_2 snd _ (name, p)).
  apply list_elem_of_filter. split; [|exact Hin].
  unfold regularizable. rewrite Hname, Hgrad. exact I.
Qed.

Lemma init_zero_dimensional_witness :
  __init__ demo_scalar_model 1 None = Raise TypeError.
Proof.
  apply (init_zero_dimensional demo_scalar_model 1 None "scale" (mkParam true [] [1]));
    try reflexivity.
  apply elem_of_cons. right. apply elem_of_cons. left. reflexivity.
Defined.

Lemma fold_left_mul (ds : list nat) (d : nat) :
  fold_left Nat.mul ds d = (d * numel ds)%nat.
Proof.
  revert d. induction ds as [|x ds IH]; intros d; simpl; [lia|].
  rewrite IH. lia.
Qed.

Lemma fold_left_add (xs : list nat) (a : nat) :
  fold_left Nat.add xs a = (a + fold_right Nat.add 0 xs)%nat.
Proof.
  revert a. induction xs as [|x xs IH]; intros a; simpl; [lia|].
  rewrite IH. lia.
Qed.

Lemma n_params_of_count params :
  Forall (fun p => size p <> []) params ->
  n_params_of params = Ok (count_params params).
Proof.
  intros H. unfold n_params_of, count_params.
  assert (E : comprehension (fun q => reduce Nat.mul (size q)) params
              = Ok (map (fun p => numel (size p)) params)).
  { induction H as [|p params Hp _ IH]; [reflexivity|].
    simpl. destruct (size p) as [|d ds] eqn:Hs; [congruence|]. simpl.
    rewrite IH. simpl. rewrite fold_left_mul. reflexivity. }
  rewrite E. simpl. rewrite fold_left_add. reflexivity.
Qed.

(** X8. When every retained parameter has at least one dimension, the
    constructor counts the entries of the trainable parameters whose name
    has no ".bias", raises [ZeroDivisionError] when there is none, and
    otherwise returns a manager with these parameters, the coefficient
    [l1_reg] divided by that count, the history it was given and three empty
    lists; biases and frozen parameters play no part. *)
Theorem init_l1_coeff (model : list (string * Param)) l1_reg history :
  Forall (fun p => size p <> []) (regularizable_params model) ->
  __init__ model l1_reg history =
    match count_params (regularizable_params model) with
    | O => Raise ZeroDivisionError
    | S _ =>
        Ok {| reg_params := regularizable_params model;
              l1_coeff := l1_reg / inject_Z (Z.of_nat (count_params (regularizable_params model)));
              loss_history := history;
              names := []; weights := []; losses := [] |}
    end.
Proof.
  intros H. unfold __init__. fold (regularizable_params model).
  rewrite (n_params_of_count _ H). simpl.
  destruct (count_params (regularizable_params model)); reflexivity.
Qed.

Lemma init_l1_coeff_witness :
  __init__ demo_two_layers 1 None =
    match count_params (regularizable_params demo_two_layers) with
    | O => Raise ZeroDivisionError
    | S _ =>
        Ok {| reg_params := regularizable_params demo_two_layers;
              l1_coeff := 1 / inject_Z (Z.of_nat (count_params (regularizable_params demo_two_layers)));
              loss_history := None;
              names := []; weights := []; losses := [] |}
    end.
Proof.
  apply (init_l1_coeff demo_two_layers 1 None).
  repeat constructor; discriminate.
Defined.

Example init_two_layers :
  l1_coeff <$> (match __init__ demo_two_layers 1 None with Ok m => Some m | Raise _ => None end)
  = Some (1 / 30).
Proof. reflexivity. Qed.

(** ** Further properties of the loss functions *)

Lemma tsum_proper (xs ys : vec) : Forall2 Qeq xs ys -> tsum xs == tsum ys.
Proof.
  induction 1 as [|x y xs ys Hxy _ IH]; [reflexivity|].
  rewrite !tsum_cons, Hxy, IH. reflexivity.
Qed.

Lemma pow2_nonneg x : 0 <= pow2 x.
Proof.
  unfold pow2, Qle, Qmult. simpl. rewrite Z.mul_1_r. apply Z.square_nonneg.
Qed.

Lemma squares_sym (xs ys : vec) :
  Forall2 Qeq (map pow2 (zip_with Qminus xs ys)) (map pow2 (zip_with Qminus ys xs)).
Proof.
  revert ys. induction xs as [|x xs IH]; intros [|y ys]; simpl; try constructor.
  - unfold pow2. ring.
  - apply IH.
Qed.

Lemma mean_proper (xs ys : vec) : Forall2 Qeq xs ys -> scalar_eq (mean xs) (mean ys).
Proof.
  intros H. pose proof (Forall2_length _ _ _ H) as Hlen.
  pose proof (tsum_proper _ _ H) as Hsum.
  destruct H as [|x y xs ys Hxy H]; simpl; [exact I|].
  unfold qmean. rewrite Hsum, Hlen. reflexivity.
Qed.

(** X9. On two tensors of one shape the mean squared error does not
    depend on which of them is the input and which the target:
    [reconstructionLoss(a, b)] and [reconstructionLoss(b, a)] both return,
    and return the same number ([nan] for tensors without entries). *)
Theorem reconstructionLoss_symmetric (a b : tensor Q) :
  shape a = shape b ->
  exists v v',
    reconstructionLoss a b = Ok v /\
    reconstructionLoss b a = Ok v' /\
    scalar_eq v v'.
Proof.
  intros E. unfold reconstructionLoss, mse_loss, tensor_pointwise.
  rewrite (decide_True (P := shape a = shape b)) by exact E.
  rewrite (decide_True (P := shape b = shape a)) by congruence. simpl.
  eexists _, _. split; [reflexivity|]. split; [reflexivity|].
  apply mean_proper, squares_sym.
Qed.

Lemma reconstructionLoss_symmetric_witness :
  exists v v',
    reconstructionLoss demo_obs demo_decoded = Ok v /\
    reconstructionLoss demo_decoded demo_obs = Ok v' /\
    scalar_eq v v'.
Proof. apply reconstructionLoss_symmetric. reflexivity. Defined.

Example reconstructionLoss_demo :
  reconstructionLoss demo_obs demo_decoded = Ok (Num (1 # 2)) /\
  reconstructionLoss demo_decoded demo_obs = Ok (Num (1 # 2)).
Proof. split; reflexivity. Qed.

Lemma squares_nonneg (xs : vec) : Forall (fun x => 0 <= x) (map pow2 xs).
Proof. apply Forall_fmap, Forall_forall. intros x _. apply pow2_nonneg. Qed.

Lemma qmean_nonneg (xs : vec) : Forall (fun x => 0 <= x) xs -> 0 <= qmean xs.
Proof.
  intros H. unfold qmean, Qdiv. apply Qmult_le_0_compat; [apply tsum_nonneg; exact H|].
  apply Qinv_le_0_compat. unfold Qle. simpl. lia.
Qed.

Lemma squares_self_zero (xs : vec) :
  Forall (fun x => x == 0) (map pow2 (zip_with Qminus xs xs)).
Proof.
  induction xs as [|x xs IH]; simpl; constructor; [unfold pow2; ring | exact IH].
Qed.

(** X10. A mean squared error is never negative, and that of a tensor
    with itself is zero when the tensor has an entry (and [nan] when it has
    none). *)
Theorem reconstructionLoss_nonneg_zero :
  (forall (a b : tensor Q) v, reconstructionLoss a b = Ok (Num v) -> 0 <= v) /\
  (forall (a : tensor Q),
      elems a <> [] -> exists v, reconstructionLoss a a = Ok (Num v) /\ v == 0) /\
  (forall (a : tensor Q), elems a = [] -> reconstructionLoss a a = Ok NaN).
Proof.
  unfold reconstructionLoss, mse_loss, tensor_pointwise. split; [|split].
  - intros a b v. case_decide; [|discriminate]. simpl.
    destruct (map pow2 _) as [|x xs] eqn:E; [discriminate|].
    intros [= <-]. apply qmean_nonneg. rewrite <- E. apply squares_nonneg.
  - intros a Hne. rewrite decide_True by reflexivity. simpl.
    exists (qmean (map pow2 (zip_with Qminus (elems a) (elems a)))). split.
    + destruct (elems a); [congruence | reflexivity].
    + apply qmean_zero, squares_self_zero.
  - intros a Hnil. rewrite decide_True by reflexivity. simpl. rewrite Hnil. reflexivity.
Qed.

Lemma reconstructionLoss_nonneg_zero_witness :
  (0 <= 1 # 2) /\
  (exists v, reconstructionLoss demo_obs demo_obs = Ok (Num v) /\ v == 0) /\
  reconstructionLoss (mkTensor [0]%nat []) (mkTensor [0]%nat []) = Ok NaN.
Proof.
  destruct reconstructionLoss_nonneg_zero as (Hnonneg & Hzero & Hnan).
  split; [|split].
  - apply (Hnonneg demo_obs demo_decoded). reflexivity.
  - apply Hzero. discriminate.
  - apply Hnan. reflexivity.
Defined.

(** *** The variational loss *)

Lemma kl_term_shapes (th_exp : Q -> Q) (mu logvar : tensor Q) k :
  kl_term th_exp mu logvar = Ok k -> shape logvar = shape mu.
Proof.
  unfold kl_term, tensor_pointwise, tensor_map. simpl.
  case_decide; [auto | discriminate].
Qed.

Lemma tsum_nonpos (xs : vec) : Forall (fun x => x <= 0) xs -> tsum xs <= 0.
Proof.
  induction 1 as [|x xs Hx _ IH]; [unfold tsum; simpl; apply Qle_refl|].
  rewrite tsum_cons. replace 0 with (0 + 0) by reflexivity.
  apply Qplus_le_compat; assumption.
Qed.

Lemma kl_entries_nonpos (th_exp : Q -> Q) (lv mu : vec) :
  (forall x, 1 + x <= th_exp x) ->
  Forall (fun x => x <= 0)
    (zip_with Qminus (zip_with Qminus (map (Qplus 1) lv) (map pow2 mu)) (map th_exp lv)).
Proof.
  intros Hexp. revert mu. induction lv as [|l lv IH]; intros [|m mu]; simpl;
    try constructor; [|apply IH].
  apply (Qplus_le_l _ _ (th_exp l)). ring_simplify.
  apply Qle_trans with (1 + l); [|apply Hexp].
  apply (Qplus_le_l _ _ (pow2 m - 1 - l)). ring_simplify. apply pow2_nonneg.
Qed.

(** X11. The KL term of [vaeLoss] is never negative, the exponential
    lying on or above the line [1 + x]. *)
Theorem kl_term_nonneg (th_exp : Q -> Q) (mu logvar : tensor Q) k :
  (forall x, 1 + x <= th_exp x) ->
  kl_term th_exp mu logvar = Ok k ->
  0 <= k.
Proof.
  intros Hexp Hk. pose proof (kl_term_shapes _ _ _ _ Hk) as Hs.
  rewrite (kl_term_value th_exp mu logvar Hs) in Hk. injection Hk as <-.
  pose proof (tsum_nonpos _ (kl_entries_nonpos th_exp (elems logvar) (elems mu) Hexp)) as H.
  set (s := tsum _) in *.
  assert (E : - (1 # 2) * s == (1 # 2) * - s) by ring.
  rewrite E. apply Qmult_le_0_compat; [discriminate|].
  apply (Qopp_le_compat s 0) in H. exact H.
Qed.

Lemma kl_term_nonneg_witness :
  exists k, kl_term above_tangent demo_mu demo_logvar = Ok k /\ 0 <= k.
Proof.
  exists (1 # 2). split; [reflexivity|].
  apply (kl_term_nonneg above_tangent demo_mu demo_logvar).
  - intros x. unfold above_tangent.
    apply (Qplus_le_l _ _ (- 1 - x)). ring_simplify.
    apply (pow2_nonneg x).
  - reflexivity.
Defined.

Lemma kl_entries_zero (th_exp : Q -> Q) (n : nat) :
  th_exp 0 == 1 ->
  Forall (fun x => x == 0)
    (zip_with Qminus
       (zip_with Qminus (map (Qplus 1) (replicate n 0)) (map pow2 (replicate n 0)))
       (map th_exp (replicate n 0))).
Proof.
  intros H0. induction n as [|n IH]; simpl; constructor; [|exact IH].
  rewrite H0. unfold pow2. ring.
Qed.

(** X12. For a latent distribution that is standard normal, means and
    log-variances all zero, the KL term is zero, the exponential being 1
    at 0. *)
Theorem kl_term_standard_normal (th_exp : Q -> Q) (shape : list nat) (n : nat) :
  th_exp 0 == 1 ->
  exists k, kl_term th_exp (zeros shape n) (zeros shape n) = Ok k /\ k == 0.
Proof.
  intros H0. rewrite kl_term_value by reflexivity. eexists. split; [reflexivity|].
  simpl. rewrite (tsum_zero _ (kl_entries_zero th_exp n H0)). ring.
Qed.

Lemma kl_term_standard_normal_witness :
  exists k, kl_term above_tangent (zeros [2; 3]%nat 6) (zeros [2; 3]%nat 6) = Ok k /\ k == 0.
Proof. apply kl_term_standard_normal. reflexivity. Defined.

(** X13. Without the perceptual loss [vaeLoss] does not look at the
    encodings nor at [weight_perceptual]; with it, [vaeLoss] does not look
    at the observations nor at their reconstructions. *)
Theorem vaeLoss_unused_arguments (th_exp : Q -> Q)
    (decoded next_decoded obs next_obs mu next_mu logvar next_logvar : tensor Q)
    (weight beta : Q) (er ep ner nep : option (tensor Q)) (weight_perceptual : Q)
    (self : LossManager) :
  (forall er' ep' ner' nep' weight_perceptual',
      vaeLoss th_exp decoded next_decoded obs next_obs mu next_mu logvar next_logvar
        weight beta false er ep ner nep weight_perceptual self
      = vaeLoss th_exp decoded next_decoded obs next_obs mu next_mu logvar next_logvar
          weight beta false er' ep' ner' nep' weight_perceptual' self) /\
  (forall decoded' next_decoded' obs' next_obs',
      vaeLoss th_exp decoded next_decoded obs next_obs mu next_mu logvar next_logvar
        weight beta true er ep ner nep weight_perceptual self
      = vaeLoss th_exp decoded' next_decoded' obs' next_obs' mu next_mu logvar next_logvar
          weight beta true er ep ner nep weight_perceptual self).
Proof.
  split; intros.
  - rewrite !vaeLoss_plain. reflexivity.
  - rewrite !vaeLoss_perceptual. reflexivity.
Qed.

(** X14. With the perceptual loss enabled and an encoding of the current
    observation left at its default [None], [vaeLoss] raises
    [AttributeError] once the KL divergence is computed, and registers
    nothing. *)
Theorem vaeLoss_perceptual_without_encoding (th_exp : Q -> Q)
    (decoded next_decoded obs next_obs mu next_mu logvar next_logvar : tensor Q)
    (weight beta : Q) (er ep ner nep : option (tensor Q)) (weight_perceptual : Q)
    (self : LossManager) :
  shape logvar = shape mu ->
  shape next_logvar = shape next_mu ->
  er = None \/ ep = None ->
  vaeLoss th_exp decoded next_decoded obs next_obs mu next_mu logvar next_logvar
    weight beta true er ep ner nep weight_perceptual self
  = (Raise AttributeError, self).
Proof.
  intros Hs Hs' Hnone. rewrite vaeLoss_perceptual.
  unfold kl_divergence_of, denoiser_encoding_loss_of.
  rewrite (kl_term_value th_exp mu logvar Hs), (kl_term_value th_exp next_mu next_logvar Hs').
  simpl. destruct Hnone as [-> | ->]; [reflexivity|].
  destruct er; reflexivity.
Qed.

Lemma vaeLoss_perceptual_without_encoding_witness :
  vaeLoss constant_one demo_decoded demo_decoded demo_obs demo_obs
    demo_mu demo_mu demo_logvar demo_logvar 1 1 true None None None None 0 demo_manager
  = (Raise AttributeError, demo_manager).
Proof.
  apply vaeLoss_perceptual_without_encoding; [reflexivity | reflexivity | left; reflexivity].
Defined.

(** *** The L1 loss *)

Lemma pysum_tensors (qs : vec) (acc : Q) :
  fold_left vadd (map (fun q => Tensor (Num q)) qs) (Tensor (Num acc))
  = Tensor (Num (fold_left Qplus qs acc)).
Proof.
  revert acc. induction qs as [|q qs IH]; intros acc; simpl; [reflexivity | apply IH].
Qed.

Lemma pysum_from_zero (qs : vec) :
  pysum (map (fun q => Tensor (Num q)) qs)
  = match qs with
    | [] => PyNumber (Num 0)
    | _ :: _ => Tensor (Num (tsum qs))
    end.
Proof.
  unfold pysum, tsum. destruct qs as [|q qs]; [reflexivity|].
  simpl. apply pysum_tensors.
Qed.

Lemma abs_sum_nonneg (xs : vec) : 0 <= tsum (map Qabs xs).
Proof.
  apply tsum_nonneg, Forall_fmap, Forall_forall. intros x _. apply Qabs_nonneg.
Qed.

Lemma tsum_zero_inv (xs : vec) :
  Forall (fun x => 0 <= x) xs -> tsum xs == 0 -> Forall (fun x => x == 0) xs.
Proof.
  induction 1 as [|x xs Hx Hxs IH]; intros Hsum; constructor.
  - rewrite tsum_cons in Hsum. apply Qle_antisym; [|exact Hx].
    rewrite <- Hsum. rewrite <- (Qplus_0_r x) at 1.
    apply Qplus_le_r. apply tsum_nonneg. exact Hxs.
  - apply IH. rewrite tsum_cons in Hsum. apply Qle_antisym; [|apply tsum_nonneg; exact Hxs].
    rewrite <- Hsum. rewrite <- (Qplus_0_l (tsum xs)) at 1.
    apply Qplus_le_l. exact Hx.
Qed.

Lemma Qabs_zero_inv x : Qabs x == 0 -> x == 0.
Proof.
  intros H.
  assert (Hle : Qabs x <= 0) by (apply Qle_lteq; right; exact H).
  apply Qabs_Qle_condition in Hle. destruct Hle as [Hlo Hhi].
  apply Qle_antisym; assumption.
Qed.

(** X15. [l1Loss] always registers its term, whose value is never
    negative, and is zero only when every entry of every parameter is
    zero; it is a tensor, except for an empty list of parameters, where it
    is the integer 0 that [sum] starts from. *)
Theorem l1Loss_nonneg (params : list Param) (weight : Q) (self : LossManager) :
  exists v,
    l1Loss params weight self =
      (Ok (match params with
           | [] => PyNumber (Num (weight * v))
           | _ :: _ => Tensor (Num (weight * v))
           end),
       addToLosses "l1_loss" weight
         (match params with
          | [] => PyNumber (Num v)
          | _ :: _ => Tensor (Num v)
          end) self) /\
    0 <= v /\
    (v == 0 -> Forall (fun param => Forall (fun x => x == 0) (data param)) params).
Proof.
  unfold l1Loss, lm_bind, call_addToLosses, lm_ret.
  rewrite <- (map_map (fun param => tsum (map Qabs (data param)))
                      (fun q => Tensor (Num q))).
  rewrite pysum_from_zero.
  exists (tsum (map (fun param => tsum (map Qabs (data param))) params)).
  split; [destruct params; reflexivity|].
  assert (Hnn : Forall (fun x => 0 <= x)
                  (map (fun param => tsum (map Qabs (data param))) params)).
  { apply Forall_fmap, Forall_forall. intros p _. apply abs_sum_nonneg. }
  split; [apply tsum_nonneg; exact Hnn|].
  intros Hz. pose proof (tsum_zero_inv _ Hnn Hz) as Hall.
  apply Forall_fmap in Hall. eapply Forall_impl; [exact Hall|].
  intros p Hp. simpl in Hp.
  assert (Habs : Forall (fun x => 0 <= x) (map Qabs (data p))).
  { apply Forall_fmap, Forall_forall. intros x _. apply Qabs_nonneg. }
  pose proof (tsum_zero_inv _ Habs Hp) as Hd. apply Forall_fmap in Hd.
  eapply Forall_impl; [exact Hd|]. intros x Hx. apply Qabs_zero_inv. exact Hx.
Qed.

Lemma l1Loss_nonneg_witness :
  exists v,
    l1Loss (regularizable_params demo_two_layers) 2 demo_manager =
      (Ok (Tensor (Num (2 * v))), addToLosses "l1_loss" 2 (Tensor (Num v)) demo_manager) /\
    0 <= v /\
    (v == 0 ->
     Forall (fun param => Forall (fun x => x == 0) (data param))
            (regularizable_params demo_two_layers)).
Proof. apply (l1Loss_nonneg (regularizable_params demo_two_layers) 2 demo_manager). Defined.

Example l1Loss_no_parameter :
  l1Loss [] 2 demo_manager
  = (Ok (PyNumber (Num (2 * 0))), addToLosses "l1_loss" 2 (PyNumber (Num 0)) demo_manager).
Proof. reflexivity. Qed.

(** X23. The value [l1Loss] registers for an empty list of parameters is
    the integer 0 of Python, which has no [item]: on a manager with nothing
    else recorded and a slot for "l1_loss" in its history, the commit that
    follows raises [AttributeError], when the weight is positive, and
    leaves the manager as it was. *)
Theorem l1Loss_no_parameter_commit (weight : Q) (self : LossManager) h l :
  loss_history self = Some h ->
  names self = [] -> weights self = [] -> losses self = [] ->
  h !! "l1_loss" = Some l ->
  0 < weight ->
  updateLossHistory (l1Loss [] weight self).2
  = (Raise AttributeError, (l1Loss [] weight self).2).
Proof.
  destruct self as [rp c oh ns ws ls]. simpl.
  intros -> -> -> -> Hl Hw.
  unfold updateLossHistory. simpl.
  rewrite (proj2 (Qgtb_lt weight 0) Hw), Hl.
  destruct (0 <? length l)%nat; reflexivity.
Qed.

Lemma l1Loss_no_parameter_commit_witness :
  updateLossHistory (l1Loss [] 2 demo_l1_manager).2
  = (Raise AttributeError, (l1Loss [] 2 demo_l1_manager).2).
Proof.
  apply (l1Loss_no_parameter_commit 2 demo_l1_manager {["l1_loss" := []]} []);
    reflexivity.
Defined.

(** *** The priors *)

Lemma sadd_NaN_total a b c : sadd (sadd (sadd a NaN) b) c = NaN.
Proof. rewrite sadd_NaN_r. reflexivity. Qed.

(** X16. When the minibatch has no dissimilar pair, or no pair of equal
    actions, a mean over no value makes [roboticPriorsLoss] register a
    [nan] and return [nan]. *)
Theorem roboticPriorsLoss_without_pairs (th_exp th_sqrt : Q -> Q) (states next_states : mat)
    (minibatch_idx : Z) (dissimilar_pairs same_actions_pairs : list (list (Z * Z)))
    (weight : Q) (self : LossManager) :
  pyindex dissimilar_pairs minibatch_idx = Ok [] \/
  pyindex same_actions_pairs minibatch_idx = Ok [] ->
  match roboticPriorsLoss th_exp th_sqrt states next_states minibatch_idx
          dissimilar_pairs same_actions_pairs weight self with
  | (Ok returned, self') => returned = Tensor NaN /\ Tensor NaN ∈ losses self'
  | (Raise _, self') => self' = self
  end.
Proof.
  intros Hempty. unfold roboticPriorsLoss, lm_bind, lift.
  destruct (pyindex dissimilar_pairs minibatch_idx) as [dp|e]; [|reflexivity].
  destruct (pyindex same_actions_pairs minibatch_idx) as [sa|e]; [|reflexivity].
  destruct (pointwise2 Qminus next_states states) as [state_diff|e]; [|reflexivity].
  destruct Hempty as [[= ->]|[= ->]]; simpl.
  - repeat match goal with
           | |- context [match ?r with Ok _ => _ | Raise _ => _ end] =>
               destruct r; [|reflexivity]
           end.
    simpl. split.
    + rewrite sadd_NaN_r. reflexivity.
    + rewrite !elem_of_app, !list_elem_of_singleton. auto.
  - repeat match goal with
           | |- context [match ?r with Ok _ => _ | Raise _ => _ end] =>
               destruct r; [|reflexivity]
           end.
    simpl. split.
    + rewrite sadd_NaN_r. reflexivity.
    + rewrite !elem_of_app, !list_elem_of_singleton. auto.
Qed.

Lemma roboticPriorsLoss_without_pairs_witness :
  match roboticPriorsLoss constant_one Qabs demo_states demo_next_states 0
          [[]] demo_pairs 1 demo_manager with
  | (Ok returned, self') => returned = Tensor NaN /\ Tensor NaN ∈ losses self'
  | (Raise _, self') => self' = demo_manager
  end.
Proof. apply roboticPriorsLoss_without_pairs. left. reflexivity. Defined.

Example roboticPriorsLoss_without_pairs_demo :
  (roboticPriorsLoss constant_one Qabs demo_states demo_next_states 0
     [[]] demo_pairs 1 demo_manager).1 = Ok (Tensor NaN).
Proof. reflexivity. Qed.

(** *** The mutual-information loss on a batch without rows *)

Lemma fold_result_unchanged {S A} (body : S -> A -> result S) (xs : list A) (s : S) :
  (forall s x, body s x = Ok s) -> fold_result body xs s = Ok s.
Proof.
  intros Hb. induction xs as [|x xs IH]; simpl; [reflexivity|].
  rewrite Hb. simpl. exact IH.
Qed.

Section EmptyBatch.

Variables th_exp th_log th_sqrt : Q -> Q.
Variable np_pi : Q.
Hypothesis th_sqrt_nonneg : forall x, 0 <= th_sqrt x.

Lemma densities_ok_any (d : nat) (a : mat) :
  rectangular d a ->
  exists ps,
    comprehension
      (fun row => density th_exp th_sqrt np_pi row (mean_dim0 a) (std_dim0 th_sqrt a)) a
    = Ok ps.
Proof.
  intros Hr. destruct a as [|row a]; [exists []; reflexivity|].
  destruct (densities_ok th_exp th_sqrt np_pi th_sqrt_nonneg d (row :: a))
    as (ps & Hps & _); [discriminate | exact Hr | eauto].
Qed.

(** X17. On a batch where the states or the rewards have no row, the
    loops of [mutualInformationLoss] do not run, [I] is still the integer 0
    it started as, and [th.exp(-I)] raises [TypeError]: nothing is
    registered. *)
Theorem mutualInformationLoss_empty_batch (dx dy : nat) (states rewards_st : mat)
    (weight : Q) (self : LossManager) :
  rectangular dx states ->
  rectangular dy rewards_st ->
  states = [] \/ rewards_st = [] ->
  mutualInformationLoss th_exp th_log th_sqrt np_pi states rewards_st weight self
  = (Raise TypeError, self).
Proof.
  intros HX HY Hempty. unfold mutualInformationLoss, lm_bind, lift.
  destruct (densities_ok_any dx states HX) as [p_x ->].
  destruct (densities_ok_any dy rewards_st HY) as [p_y ->].
  destruct Hempty as [-> | ->]; simpl.
  - reflexivity.
  - rewrite fold_result_unchanged; reflexivity.
Qed.

End EmptyBatch.

Lemma mutualInformationLoss_empty_batch_witness :
  mutualInformationLoss constant_one constant_zero Qabs 3
    [[1; 2]; [3; 4]] [] 1 demo_manager
  = (Raise TypeError, demo_manager).
Proof.
  apply (mutualInformationLoss_empty_batch constant_one constant_zero Qabs 3)
    with (dx := 2%nat) (dy := 1%nat).
  - exact Qabs_nonneg.
  - repeat constructor.
  - constructor.
  - right. reflexivity.
Defined.

(** *** The sampling of the episode prior *)

Lemma where_elem_of (cond : Z -> bool) (xs : list Z) (j : Z) :
  j ∈ where_ cond xs ->
  exists i x, j = Z.of_nat i /\ xs !! i = Some x /\ cond x = true.
Proof.
  unfold where_. intros Hj.
  apply list_elem_of_fmap in Hj as ([i x] & -> & Hin).
  apply list_elem_of_filter in Hin as [Hc Hin]. simpl in *.
  apply elem_of_lookup_imap in Hin as (i' & x' & [= -> ->] & Hx).
  exists i', x'. split; [reflexivity|]. split; [exact Hx|].
  apply Is_true_true. exact Hc.
Qed.

Lemma where_none (cond : Z -> bool) (xs : list Z) :
  Forall (fun x => cond x = false) xs -> where_ cond xs = [].
Proof.
  intros Hall. destruct (where_ cond xs) as [|j js] eqn:E; [reflexivity|].
  destruct (where_elem_of cond xs j) as (i & x & _ & Hx & Hc).
  { rewrite E. apply elem_of_cons. auto. }
  rewrite Forall_forall in Hall.
  rewrite (Hall x) in Hc; [discriminate|]. eapply list_elem_of_lookup_2. exact Hx.
Qed.

Section EpisodeSampling.

Variable BCELoss : tensor Q -> tensor Q -> result scalar.
Variable rng : Type.
Variable np_random_rand : rng -> Q * rng.
Variable np_random_choice : list Z -> rng -> Z * rng.
Variable np_random_permutation : nat -> rng -> list Z * rng.

(** X18. With balanced sampling on a minibatch whose states all belong to
    one episode, a first draw above 0.5 asks for a state of another
    episode, of which there is none: [np.random.choice] raises
    [ValueError] and nothing is registered. *)
Theorem episodePriorLoss_single_episode (minibatch_idx : Z)
    (minibatch_episodes : list (list Z)) (states : mat)
    (discriminator : mat -> result (tensor Q)) (weight : Q) (g g1 : rng)
    (episode : Z) (n : nat) (u : Q) (self : LossManager) :
  pyindex minibatch_episodes minibatch_idx = Ok (replicate (S n) episode) ->
  np_random_rand g = (u, g1) ->
  0.5 < u ->
  (episodePriorLoss BCELoss rng np_random_rand np_random_choice np_random_permutation
     minibatch_idx minibatch_episodes states discriminator true weight g).1 self
  = (Raise ValueError, self) /\
  (episodePriorLoss BCELoss rng np_random_rand np_random_choice np_random_permutation
     minibatch_idx minibatch_episodes states discriminator true weight g).2 = g1.
Proof.
  intros Hidx Hrand Hu. unfold episodePriorLoss. rewrite Hidx.
  rewrite length_replicate.
  change (seq 0 (S n)) with (0%nat :: seq 1 n).
  cbn [balanced_others]. rewrite Hrand.
  change (getitem (replicate (S n) episode) 0) with (Ok (A := Z) episode).
  apply Qgtb_lt in Hu. rewrite Hu.
  rewrite where_none.
  - simpl. split; reflexivity.
  - apply Forall_replicate. rewrite Z.eqb_refl. reflexivity.
Qed.

Hypothesis choice_of_candidates :
  forall candidates g, candidates <> [] -> (np_random_choice candidates g).1 ∈ candidates.

Lemma balanced_others_in_range (episodes : list Z) (idxs : list nat) (others : list Z)
    (g : rng) (sampled : list Z) (g' : rng) :
  Forall (in_range (length episodes)) others ->
  balanced_others rng np_random_rand np_random_choice episodes idxs others g
    = (Ok sampled, g') ->
  Forall (in_range (length episodes)) sampled /\ length sampled = length others.
Proof.
  revert others g. induction idxs as [|i idxs IH]; intros others g Hall; simpl.
  - intros [= <- <-]. auto.
  - destruct (np_random_rand g) as [u g1].
    destruct (getitem episodes i) as [episode_i|e]; [|discriminate].
    set (candidates := if Qgtb u 0.5 then _ else _).
    unfold choice. destruct candidates as [|c cs] eqn:Ec; [discriminate|].
    pose proof (choice_of_candidates (c :: cs) g1) as Hc.
    destruct (np_random_choice (c :: cs) g1) as [j g2]. simpl in Hc.
    intros Hrec. apply IH in Hrec.
    + rewrite length_insert in Hrec. exact Hrec.
    + apply Forall_insert; [exact Hall|].
      assert (Hj : j ∈ candidates) by (rewrite Ec; apply Hc; discriminate).
      unfold candidates in Hj.
      assert (Hw : exists cond, j ∈ where_ cond episodes)
        by (destruct (Qgtb u 0.5); eauto).
      destruct Hw as [cond Hw].
      apply where_elem_of in Hw as (k & x & -> & Hk & _).
      apply lookup_lt_Some in Hk. unfold in_range. lia.
Qed.

Lemma arange_in_range (n : nat) : Forall (in_range n) (arange n).
Proof.
  unfold arange. apply Forall_fmap, Forall_forall. intros k Hk.
  apply elem_of_seq in Hk. simpl. unfold in_range. lia.
Qed.

Lemma index_select_in_range {A} (xs : list A) (idx : list Z) :
  Forall (in_range (length xs)) idx ->
  exists picked, index_select xs idx = Ok picked /\ length picked = length idx.
Proof.
  intros Hall. unfold index_select. apply comprehension_ok.
  intros j Hj. rewrite Forall_forall in Hall. specialize (Hall j Hj).
  unfold in_range in Hall. unfold pyindex.
  replace (0 <=? j)%Z with true by (symmetry; apply Z.leb_le; lia).
  destruct (getitem_lt xs (Z.to_nat j)) as (x & Hx & _); [lia | eauto].
Qed.

(** X19. With balanced sampling, when the sampling returns, it has drawn
    one index for each state of the minibatch and every index is a position
    of the minibatch, so that [episodes[others_idx]] cannot fail;
    [np.random.choice] returns one of its candidates. *)
Theorem balanced_sampling_in_range (episodes : list Z) (g : rng)
    (others_idx : list Z) (g' : rng) :
  balanced_others rng np_random_rand np_random_choice episodes
    (seq 0 (length episodes)) (arange (length episodes)) g = (Ok others_idx, g') ->
  length others_idx = length episodes /\
  Forall (in_range (length episodes)) others_idx /\
  exists others_episodes,
    index_select episodes others_idx = Ok others_episodes /\
    length others_episodes = length episodes.
Proof.
  intros Hs.
  apply balanced_others_in_range in Hs as [Hall Hlen]; [|apply arange_in_range].
  assert (Hlen' : length others_idx = length episodes).
  { rewrite Hlen. unfold arange. rewrite length_map, length_seq. reflexivity. }
  split; [exact Hlen'|]. split; [exact Hall|].
  destruct (index_select_in_range episodes others_idx Hall) as (picked & Hp & Hl).
  exists picked. split; [exact Hp | congruence].
Qed.

Lemma where_intro (cond : Z -> bool) (xs : list Z) (i : nat) (x : Z) :
  xs !! i = Some x -> cond x = true -> Z.of_nat i ∈ where_ cond xs.
Proof.
  intros Hx Hc. unfold where_.
  apply (list_elem_of_fmap_2 (fun jx : nat * Z => Z.of_nat jx.1) _ (i, x)).
  apply list_elem_of_filter. split; [simpl; rewrite Hc; exact I|].
  apply elem_of_lookup_imap. eauto.
Qed.

Lemma balanced_others_returns (episodes : list Z) (a b : Z) (idxs : list nat)
    (others : list Z) (g : rng) :
  a ∈ episodes -> b ∈ episodes -> a <> b ->
  Forall (fun i => (i < length episodes)%nat) idxs ->
  exists sampled g',
    balanced_others rng np_random_rand np_random_choice episodes idxs others g
    = (Ok sampled, g').
Proof.
  intros Ha Hb Hab. revert others g.
  induction idxs as [|i idxs IH]; intros others g Hidx; simpl; [eauto|].
  apply Forall_cons in Hidx as [Hi Hidx].
  destruct (np_random_rand g) as [u g1].
  destruct (lookup_lt_is_Some_2 episodes i Hi) as [y Hy].
  unfold getitem. rewrite Hy.
  set (candidates := if Qgtb u 0.5 then _ else _).
  assert (Hne : candidates <> []).
  { unfold candidates. destruct (Qgtb u 0.5).
    - assert (Hother : exists x, x ∈ episodes /\ x <> y).
      { destruct (decide (a = y)) as [<-|Hne]; [exists b | exists a]; auto. }
      destruct Hother as (x & Hx & Hxy).
      apply list_elem_of_lookup_1 in Hx as [k Hk].
      intros E.
      pose proof (where_intro (fun e => negb (e =? y)%Z) episodes k x Hk) as Hin.
      rewrite E in Hin. eapply elem_of_nil, Hin.
      apply negb_true_iff, Z.eqb_neq. exact Hxy.
    - intros E.
      pose proof (where_intro (fun e => (e =? y)%Z) episodes i y Hy (Z.eqb_refl y)) as Hin.
      rewrite E in Hin. apply elem_of_nil in Hin. exact Hin. }
  unfold choice. destruct candidates as [|c cs]; [congruence|].
  destruct (np_random_choice (c :: cs) g1) as [j g2]. apply IH. exact Hidx.
Qed.

(** X20. With balanced sampling on a minibatch that holds states of at
    least two episodes, the sampling always returns, whatever the
    generator draws: a state of the same episode (the state itself, at
    least) and a state of another episode can always be found. *)
Theorem balanced_sampling_returns (episodes : list Z) (a b : Z) (g : rng) :
  a ∈ episodes -> b ∈ episodes -> a <> b ->
  exists others_idx g',
    balanced_others rng np_random_rand np_random_choice episodes
      (seq 0 (length episodes)) (arange (length episodes)) g = (Ok others_idx, g').
Proof.
  intros Ha Hb Hab. apply (balanced_others_returns episodes a b); try assumption.
  apply Forall_forall. intros i Hi. apply elem_of_seq in Hi. lia.
Qed.

End EpisodeSampling.

Lemma first_choice_member (candidates : list Z) (g : unit) :
  candidates <> [] -> (first_choice candidates g).1 ∈ candidates.
Proof.
  destruct candidates as [|c cs]; [congruence|]. intros _. simpl.
  apply elem_of_cons. auto.
Qed.

Lemma episodePriorLoss_single_episode_witness :
  (episodePriorLoss (fun _ _ => Ok (Num 0)) unit high_draw first_choice identity_permutation
     0 [[5; 5; 5]%Z] demo_states demo_discriminator true 1 tt).1 demo_manager
  = (Raise ValueError, demo_manager) /\
  (episodePriorLoss (fun _ _ => Ok (Num 0)) unit high_draw first_choice identity_permutation
     0 [[5; 5; 5]%Z] demo_states demo_discriminator true 1 tt).2 = tt.
Proof.
  apply (episodePriorLoss_single_episode (fun _ _ => Ok (Num 0)) unit high_draw first_choice
           identity_permutation 0 [[5; 5; 5]%Z] demo_states demo_discriminator 1 tt tt
           5%Z 2%nat 1 demo_manager); reflexivity.
Defined.

Lemma balanced_sampling_in_range_witness :
  length [0; 0; 2]%Z = length [1; 1; 2]%Z /\
  Forall (in_range (length [1; 1; 2]%Z)) [0; 0; 2]%Z /\
  exists others_episodes,
    index_select [1; 1; 2]%Z [0; 0; 2]%Z = Ok others_episodes /\
    length others_episodes = length [1; 1; 2]%Z.
Proof.
  apply (balanced_sampling_in_range unit low_draw first_choice first_choice_member
           [1; 1; 2]%Z tt [0; 0; 2]%Z tt).
  reflexivity.
Defined.

Lemma balanced_sampling_returns_witness :
  exists others_idx g',
    balanced_others unit high_draw first_choice [1; 1; 2]%Z
      (seq 0 (length [1; 1; 2]%Z)) (arange (length [1; 1; 2]%Z)) tt = (Ok others_idx, g').
Proof.
  apply (balanced_sampling_returns unit high_draw first_choice [1; 1; 2]%Z 1%Z 2%Z tt).
  - apply elem_of_cons. left. reflexivity.
  - apply elem_of_cons. right. apply elem_of_cons. right. apply elem_of_cons. left. reflexivity.
  - discriminate.
Defined.

(** *** Labels and margins *)

(** X21. The cross-entropy losses need their labels as a column: with
    labels of fewer than two dimensions [squeeze(1)] raises [IndexError]
    before the criterion is evaluated, and nothing is registered; with a
    column of [n] labels the criterion receives the [n] labels flat. *)
Theorem label_columns (CrossEntropyLoss : tensor Q -> tensor Z -> result scalar)
    (pred : tensor Q) (labels : list Z) (dims : list nat) (n : nat)
    (weight : Q) (self : LossManager) :
  ((length dims < 2)%nat ->
   inverseModelLoss CrossEntropyLoss pred (mkTensor dims labels) weight self
     = (Raise IndexError, self) /\
   rewardModelLoss CrossEntropyLoss pred (mkTensor dims labels) weight self
     = (Raise IndexError, self)) /\
  inverseModelLoss CrossEntropyLoss pred (mkTensor [n; 1%nat] labels) weight self
    = match CrossEntropyLoss pred (mkTensor [n] labels) with
      | Ok loss =>
          (Ok (Tensor (smul weight loss)),
           addToLosses "inverse_loss" weight (Tensor loss) self)
      | Raise e => (Raise e, self)
      end /\
  rewardModelLoss CrossEntropyLoss pred (mkTensor [n; 1%nat] labels) weight self
    = match CrossEntropyLoss pred (mkTensor [n] labels) with
      | Ok loss =>
          (Ok (Tensor (smul weight loss)),
           addToLosses "reward_loss" weight (Tensor loss) self)
      | Raise e => (Raise e, self)
      end.
Proof.
  unfold inverseModelLoss, rewardModelLoss, lm_bind, lift, squeeze. simpl.
  split; [|split].
  - intros Hlen. destruct dims as [|d [|d' dims]]; simpl in *; try lia; auto.
  - destruct (CrossEntropyLoss pred _); reflexivity.
  - destruct (CrossEntropyLoss pred _); reflexivity.
Qed.

Lemma label_columns_witness :
  inverseModelLoss (fun _ _ => Ok (Num 1)) demo_obs (mkTensor [3]%nat [0; 1; 0]%Z) 1
    demo_manager = (Raise IndexError, demo_manager) /\
  rewardModelLoss (fun _ _ => Ok (Num 1)) demo_obs (mkTensor [3]%nat [0; 1; 0]%Z) 1
    demo_manager = (Raise IndexError, demo_manager).
Proof.
  apply (proj1 (label_columns (fun _ _ => Ok (Num 1)) demo_obs [0; 1; 0]%Z [3]%nat 0 1
                  demo_manager)).
  simpl. lia.
Defined.

Lemma relu_proper x y : x == y -> relu x == relu y.
Proof.
  intros E. unfold relu.
  destruct (Qle_bool x 0) eqn:Hx, (Qle_bool y 0) eqn:Hy; try reflexivity; try exact E.
  - apply Qle_bool_iff in Hx. rewrite E in Hx. apply Qle_bool_iff in Hx. congruence.
  - apply Qle_bool_iff in Hy. rewrite <- E in Hy. apply Qle_bool_iff in Hy. congruence.
Qed.

Lemma tsum_constant (xs : vec) (c : Q) :
  Forall (fun x => x == c) xs -> tsum xs == inject_Z (Z.of_nat (length xs)) * c.
Proof.
  induction 1 as [|x xs Hx _ IH].
  - unfold tsum. simpl. ring.
  - assert (E : inject_Z (Z.of_nat (length (x :: xs)))
                == inject_Z (Z.of_nat (length xs)) + 1).
    { simpl length. rewrite Nat2Z.inj_succ.
      unfold Qeq, Qplus, inject_Z. cbn [Qnum Qden]. lia. }
    rewrite E, tsum_cons, IH, Hx. ring.
Qed.

Lemma qmean_constant (xs : vec) (c : Q) :
  xs <> [] -> Forall (fun x => x == c) xs -> qmean xs == c.
Proof.
  intros Hne H. unfold qmean. rewrite (tsum_constant xs c H).
  field. destruct xs; [congruence|]. unfold Qeq. simpl. lia.
Qed.

(** X22. When the positive and the negative states are the same tensor,
    every sample is at distance zero from the margin, and the triplet loss
    of a batch with at least one sample is the margin itself (zero for a
    negative margin). *)
Theorem tripletLoss_same_positive_negative (states others : mat) (weight alpha : Q)
    (self : LossManager) :
  states <> [] ->
  same_shape states others ->
  exists v,
    tripletLoss states others others weight alpha self =
      (Ok (Tensor (Num (weight * v))),
       addToLosses "triplet_loss" weight (Tensor (Num v)) self) /\
    v == relu alpha.
Proof.
  intros Hne Hs. rewrite (tripletLoss_formula _ _ _ weight alpha self Hs Hs).
  unfold triplet_formula.
  set (terms := map _ (zip3 states others others)).
  assert (Hterms : terms <> []).
  { unfold terms. intros E. apply fmap_nil_inv in E. revert E.
    apply zip3_nonempty; [exact Hne | |]; eapply Forall2_length; exact Hs. }
  assert (Hall : Forall (fun x => x == relu alpha) terms).
  { unfold terms. apply Forall_fmap, Forall_forall. intros [[a p] n] Hin. simpl.
    assert (Hpn : p = n).
    { clear - Hin. revert others Hin. induction states as [|s states IH];
        intros [|o others] Hin; simpl in Hin; try (apply elem_of_nil in Hin; destruct Hin).
      apply elem_of_cons in Hin as [[= _ -> ->]|Hin]; [reflexivity|].
      eapply IH. exact Hin. }
    subst n. apply relu_proper. ring. }
  exists (qmean terms). split.
  - destruct terms; [congruence | reflexivity].
  - apply qmean_constant; assumption.
Qed.

Lemma tripletLoss_same_positive_negative_witness :
  exists v,
    tripletLoss demo_states demo_p_states demo_p_states 1 0.2 demo_manager =
      (Ok (Tensor (Num (1 * v))),
       addToLosses "triplet_loss" 1 (Tensor (Num v)) demo_manager) /\
    v == relu 0.2.
Proof.
  apply tripletLoss_same_positive_negative; [discriminate | repeat constructor].
Defined.
